(** * RentGuard360: the text sanitizer and the risk-score calculator

    A shallow embedding of the two algorithmic lambdas of the backend,

    - [backend/lambdas/privacy-shield.py]: direction repair, PII masking,
      OCR-noise cleaning, clause segmentation, contract confidence;
    - [backend/lambdas/ai-analyzer.py]: [recalculate_scores];

    together with the properties the specification states about them.

    Python values are modelled as the interpreter has them: a [str] is a
    sequence of Unicode code points, an [int] is unbounded, a [float] is
    an IEEE 754 value, a [dict] keeps its keys in insertion order, [re]
    is a backtracking matcher, and an operation on a value of the wrong
    type raises. *)

From Stdlib Require Import ZArith NArith List Bool String Ascii Lia Permutation.
From Stdlib Require Import Floats.SpecFloat.
Import ListNotations.



(* ================================================================== *)
(** * Python strings *)
(* ================================================================== *)

Module Py.

(** A Python [str]: the list of its code points. *)
Definition char := N.
Definition str := list char.

(** ** Literals

    Source literals are written as they stand in the Python files; the
    file is UTF-8, so a literal is read as bytes and decoded. *)

Fixpoint bytes_of (s : string) : list N :=
  match s with
  | EmptyString => []
  | String a s' => N_of_ascii a :: bytes_of s'
  end.

Local Open Scope N_scope.

Fixpoint utf8_decode (bs : list N) : str :=
  match bs with
  | [] => []
  | b0 :: t0 =>
    if b0 <? 128 then b0 :: utf8_decode t0
    else match t0 with
    | [] => [b0]
    | b1 :: t1 =>
      if b0 <? 224 then ((b0 - 192) * 64 + (b1 - 128)) :: utf8_decode t1
      else match t1 with
      | [] => [b0; b1]
      | b2 :: t2 =>
        if b0 <? 240
        then ((b0 - 224) * 4096 + (b1 - 128) * 64 + (b2 - 128)) :: utf8_decode t2
        else match t2 with
        | [] => [b0; b1; b2]
        | b3 :: t3 =>
          ((b0 - 240) * 262144 + (b1 - 128) * 4096 + (b2 - 128) * 64 + (b3 - 128))
            :: utf8_decode t3
        end
      end
    end
  end.

Definition lit (s : string) : str := utf8_decode (bytes_of s).

Definition LF : char := 10.
Definition SP : char := 32.

Fixpoint str_eqb (a b : str) : bool :=
  match a, b with
  | [], [] => true
  | x :: a', y :: b' => (x =? y) && str_eqb a' b'
  | _, _ => false
  end.

(** ** [sub in text] *)

Fixpoint startswith (p s : str) : bool :=
  match p, s with
  | [], _ => true
  | _ :: _, [] => false
  | x :: p', y :: s' => (x =? y) && startswith p' s'
  end.

Fixpoint contains (p s : str) : bool :=
  startswith p s ||
  match s with
  | [] => false
  | _ :: s' => contains p s'
  end.

(** [s.count(p)] for a non-empty [p]: non-overlapping occurrences, left
    to right.  [skip] characters of the current occurrence are still to
    be passed over. *)
Fixpoint count_from (p s : str) (skip : nat) : nat :=
  match s with
  | [] => 0%nat
  | _ :: s' =>
    match skip with
    | S k => count_from p s' k
    | O => if startswith p s
           then S (count_from p s' (Nat.pred (List.length p)))
           else count_from p s' 0%nat
    end
  end.

Definition count (p s : str) : nat := count_from p s 0.

(** ** [text.split('\n')] and ['\n'.join(lines)] *)

Fixpoint split_on (sep : char) (s : str) : list str :=
  match s with
  | [] => [[]]
  | c :: s' =>
    if c =? sep then [] :: split_on sep s'
    else match split_on sep s' with
         | [] => [[c]]
         | l :: ls => (c :: l) :: ls
         end
  end.

Fixpoint join (sep : str) (ls : list str) : str :=
  match ls with
  | [] => []
  | [l] => l
  | l :: ls' => l ++ sep ++ join sep ls'
  end.

(** ** Whitespace

    [str.isspace], which is also [\s] of [re] on [str] patterns. *)
Definition isspace (c : char) : bool :=
  ((9 <=? c) && (c <=? 13)) || ((28 <=? c) && (c <=? 32))
  || (c =? 133) || (c =? 160) || (c =? 5760)
  || ((8192 <=? c) && (c <=? 8202))
  || (c =? 8232) || (c =? 8233) || (c =? 8239) || (c =? 8287) || (c =? 12288).

Fixpoint lstrip_of (sp : char -> bool) (s : str) : str :=
  match s with
  | [] => []
  | c :: s' => if sp c then lstrip_of sp s' else s
  end.

Definition strip_of (sp : char -> bool) (s : str) : str :=
  rev (lstrip_of sp (rev (lstrip_of sp s))).

Definition lstrip : str -> str := lstrip_of isspace.
Definition rstrip (s : str) : str := rev (lstrip (rev s)).

(** [s.strip()] *)
Definition strip : str -> str := strip_of isspace.

(** Truth value of a string: [if s] *)
Definition nonempty (s : str) : bool :=
  match s with [] => false | _ => true end.

(** [s[i:j]] for [0 <= i], [0 <= j]. *)
Definition slice (s : str) (i j : nat) : str := firstn (j - i) (skipn i s).

(** [s[i:]] *)
Definition slice_from (s : str) (i : nat) : str := skipn i s.

End Py.

Import Py.

(* ================================================================== *)
(** * The Unicode character database *)
(* ================================================================== *)

(** The interpreter's Unicode tables are not part of the repository; the
    lambdas are modelled over any tables.  [UCD.tables] below gives
    them for the code points the lambdas' own constants are written
    in. *)
Class UnicodeTables := {
  (** the digit value of a character of category Nd, [None] for every
      other character *)
  todecimal : char -> option Z;
  (** [str.isalnum] on one character; [\w] is [isalnum] or underscore *)
  isalnum : char -> bool;
  (** [casematch p c]: under [re.IGNORECASE] the pattern literal [p]
      matches the text character [c] *)
  casematch : char -> char -> bool;
  (** [str.lower] *)
  lower : str -> str;
  (** [str.upper] *)
  upper : str -> str
}.

(** [str.isdecimal] on one character: category Nd, the [\d] of [re] *)
Definition isdecimal {U : UnicodeTables} (c : char) : bool :=
  match todecimal c with Some _ => true | None => false end.

(* ================================================================== *)
(** * Regular expressions: the fragment of [re] the lambdas use *)
(* ================================================================== *)

Module Re.

Local Open Scope N_scope.

(** Stars only ever range over one-character sets in the lambdas'
    patterns, and look-behinds over one character. *)
Inductive regex : Type :=
| Eps
| Cls (p : char -> bool)
| Cat (r1 r2 : regex)
| Alt (r1 r2 : regex)
| Opt (r : regex)
| Star (p : char -> bool)
| WordB
| Bos
| Eos
| Ahead (r : regex)
| NotAhead (r : regex)
| Behind (p : char -> bool).

Declare Scope re_scope.
Delimit Scope re_scope with re.
Bind Scope re_scope with regex.
Infix "+++" := Cat (at level 60, right associativity) : re_scope.
Infix "</>" := Alt (at level 65, right associativity) : re_scope.

Definition range (a b : char) : char -> bool := fun c => (a <=? c) && (c <=? b).
Definition chr (a : char) : char -> bool := fun c => c =? a.
Definition oneof (s : str) : char -> bool := fun c => existsb (N.eqb c) s.
Definition either (p q : char -> bool) : char -> bool := fun c => p c || q c.
Definition non (p : char -> bool) : char -> bool := fun c => negb (p c).

(** [0-9], [a-z], [A-Z] *)
Definition d09 : char -> bool := range 48 57.
Definition az : char -> bool := range 97 122.
Definition AZ : char -> bool := range 65 90.

Fixpoint times (n : nat) (r : regex) : regex :=
  match n with
  | O => Eps
  | S k => Cat r (times k r)
  end.

Fixpoint upto (n : nat) (r : regex) : regex :=
  match n with
  | O => Eps
  | S k => Opt (Cat r (upto k r))
  end.

(** [r{m,n}], [p+], [p{m,}] *)
Definition rep (m n : nat) (r : regex) : regex := Cat (times m r) (upto (n - m) r).
Definition plus (p : char -> bool) : regex := Cat (Cls p) (Star p).
Definition atleast (m : nat) (p : char -> bool) : regex := Cat (times m (Cls p)) (Star p).

Fixpoint word (s : str) : regex :=
  match s with
  | [] => Eps
  | c :: s' => Cat (Cls (chr c)) (word s')
  end.

Section Matcher.
Context {U : UnicodeTables}.

(** [\w] *)
Definition isword (c : char) : bool := isalnum c || (c =? 95).

(** [\d], [\s] and their complements *)
Definition dig : char -> bool := isdecimal.
Definition spc : char -> bool := isspace.

(** a literal under [(?i)] *)
Fixpoint iword (s : str) : regex :=
  match s with
  | [] => Eps
  | c :: s' => Cat (Cls (casematch c)) (iword s')
  end.

Definition word_before (prev : option char) : bool :=
  match prev with
  | Some c => isword c
  | None => false
  end.

Definition word_after (s : str) : bool :=
  match s with
  | c :: _ => isword c
  | [] => false
  end.

(** Greedy [p*]: take the longest run first, give characters back one
    at a time while the continuation fails. *)
Fixpoint star_run (p : char -> bool) (k : option char -> str -> option str)
    (prev : option char) (s : str) {struct s} : option str :=
  match s with
  | c :: s' =>
    if p c
    then match star_run p k (Some c) s' with
         | Some out => Some out
         | None => k prev s
         end
    else k prev s
  | [] => k prev s
  end.

(** The backtracking matcher in continuation-passing style.  [prev] is
    the character before the current position ([None] at the start of
    the string), [s] the text from the current position on; the result
    is the text left after the first match the search order finds. *)
Fixpoint run (r : regex) (prev : option char) (s : str)
    (k : option char -> str -> option str) {struct r} : option str :=
  match r with
  | Eps => k prev s
  | Cls p =>
    match s with
    | c :: s' => if p c then k (Some c) s' else None
    | [] => None
    end
  | Cat r1 r2 => run r1 prev s (fun prev' s' => run r2 prev' s' k)
  | Alt r1 r2 =>
    match run r1 prev s k with
    | Some out => Some out
    | None => run r2 prev s k
    end
  | Opt r1 =>
    match run r1 prev s k with
    | Some out => Some out
    | None => k prev s
    end
  | Star p => star_run p k prev s
  | WordB => if xorb (word_before prev) (word_after s) then k prev s else None
  | Bos => match prev with None => k prev s | Some _ => None end
  | Eos =>
    match s with
    | [] => k prev s
    | [c] => if c =? LF then k prev s else None
    | _ => None
    end
  | Ahead r1 =>
    match run r1 prev s (fun _ s' => Some s') with
    | Some _ => k prev s
    | None => None
    end
  | NotAhead r1 =>
    match run r1 prev s (fun _ s' => Some s') with
    | Some _ => None
    | None => k prev s
    end
  | Behind p =>
    match prev with
    | Some c => if p c then k prev s else None
    | None => None
    end
  end.

(** The match starting exactly here, as the text left after it. *)
Definition match_at (r : regex) (prev : option char) (s : str) : option str :=
  run r prev s (fun _ rest => Some rest).

(** [pattern.match(s)] as a truth value *)
Definition matches (r : regex) (s : str) : bool :=
  match match_at r None s with
  | Some _ => true
  | None => false
  end.

Fixpoint search_from (r : regex) (prev : option char) (s : str) : bool :=
  match match_at r prev s with
  | Some _ => true
  | None =>
    match s with
    | [] => false
    | c :: s' => search_from r (Some c) s'
    end
  end.

(** [pattern.search(s)] as a truth value *)
Definition search (r : regex) (s : str) : bool := search_from r None s.

(** [pattern.sub(repl, s)] for a replacement without escapes: matches
    are taken leftmost, without overlap.  [skip] characters of the
    current match remain to be dropped. *)
Fixpoint sub_from (r : regex) (repl : str) (prev : option char) (s : str)
    (skip : nat) : str :=
  match s with
  | [] =>
    match skip with
    | O => match match_at r prev [] with Some _ => repl | None => [] end
    | S _ => []
    end
  | c :: s' =>
    match skip with
    | S k => sub_from r repl (Some c) s' k
    | O =>
      match match_at r prev s with
      | Some rest =>
        match (List.length s - List.length rest)%nat with
        | O => repl ++ c :: sub_from r repl (Some c) s' 0
        | S n => repl ++ sub_from r repl (Some c) s' n
        end
      | None => c :: sub_from r repl (Some c) s' 0
      end
    end
  end.

Definition sub (r : regex) (repl s : str) : str := sub_from r repl None s 0.

(** [[m.start() for m in pattern.finditer(s)]] *)
Fixpoint starts_from (r : regex) (prev : option char) (s : str)
    (i skip : nat) : list nat :=
  match s with
  | [] =>
    match skip with
    | O => match match_at r prev [] with Some _ => [i] | None => [] end
    | S _ => []
    end
  | c :: s' =>
    match skip with
    | S k => starts_from r (Some c) s' (S i) k
    | O =>
      match match_at r prev s with
      | Some rest =>
        i :: starts_from r (Some c) s' (S i)
               (Nat.pred (List.length s - List.length rest))
      | None => starts_from r (Some c) s' (S i) 0
      end
    end
  end.

Definition finditer_starts (r : regex) (s : str) : list nat :=
  starts_from r None s 0 0.

End Matcher.

End Re.

Import Re.

(** The tables for Basic Latin, Latin-1 Supplement, Hebrew (U+0590 to
    U+05FF), General Punctuation (U+2000 to U+206F) and the symbols of
    the lambdas' patterns (U+20AA, U+2122), where they are those of the
    interpreter; every other code point is left caseless and
    non-alphanumeric here, but for the four that fold onto [i], [s] and
    [k] under [re.IGNORECASE]. *)
Module UCD.

Local Open Scope N_scope.

Definition decimal (c : char) : option Z :=
  if range 48 57 c then Some (Z.of_N (c - 48)) else None.

Definition alnum (c : char) : bool :=
  range 48 57 c || range 65 90 c || range 97 122 c
  || (c =? 170) || (c =? 178) || (c =? 179) || (c =? 181) || (c =? 185)
  || (c =? 186) || range 188 190 c
  || range 192 214 c || range 216 246 c || range 248 255 c
  || range 1488 1514 c || range 1519 1522 c.

Definition lower1 (c : char) : char :=
  if range 65 90 c || (range 192 222 c && negb (c =? 215)) then c + 32
  else c.

Definition upper1 (c : char) : str :=
  if range 97 122 c || (range 224 254 c && negb (c =? 247)) then [c - 32]
  else if c =? 255 then [376]
  else if c =? 181 then [924]
  else if c =? 223 then [83; 83]
  else [c].

Definition fold_eq (p c : char) : bool :=
  (lower1 c =? p)
  || ((p =? 105) && ((c =? 304) || (c =? 305)))
  || ((p =? 115) && (c =? 383))
  || ((p =? 107) && (c =? 8490)).

#[export] Instance tables : UnicodeTables := {|
  todecimal := decimal;
  isalnum := alnum;
  casematch := fold_eq;
  lower := map lower1;
  upper := flat_map upper1
|}.

End UCD.

(* ================================================================== *)
(** * JSON values and dictionaries *)
(* ================================================================== *)

(** What [json.loads] builds.  A number with a fraction or an exponent,
    and [NaN], [Infinity] and [-Infinity], are a Python [float], given
    by its sign, mantissa and exponent; a number too large for a double,
    such as [1e999], is read as an infinity.  A [dict] is kept in
    insertion order. *)
#[warnings="-register-all"]
Inductive json : Type :=
| JNull
| JBool (b : bool)
| JInt (z : Z)
| JFloat (f : spec_float)
| JStr (s : str)
| JList (l : list json)
| JDict (d : list (string * json)).

Definition dict := list (string * json).

Module Dict.

(** [d.get(k)] *)
Fixpoint get (k : string) (d : dict) : option json :=
  match d with
  | [] => None
  | (k', v) :: d' => if String.eqb k k' then Some v else get k d'
  end.

(** [d.get(k, default)] *)
Definition get_default (k : string) (default : json) (d : dict) : json :=
  match get k d with
  | Some v => v
  | None => default
  end.

(** [d[k] = v] *)
Fixpoint set (k : string) (v : json) (d : dict) : dict :=
  match d with
  | [] => [(k, v)]
  | (k', v') :: d' =>
    if String.eqb k k' then (k, v) :: d' else (k', v') :: set k v d'
  end.

End Dict.

(** Truth value of a Python object, as [not x] and [x and ...] take it *)
Definition truthy (v : json) : bool :=
  match v with
  | JNull => false
  | JBool b => b
  | JInt z => negb (Z.eqb z 0)
  | JFloat f => match f with S754_zero _ => false | _ => true end
  | JStr s => match s with [] => false | _ => true end
  | JList l => match l with [] => false | _ => true end
  | JDict d => match d with [] => false | _ => true end
  end.

(* ================================================================== *)
(** * Exceptions *)
(* ================================================================== *)

Module Exn.

Inductive exn : Type :=
| TypeError
| AttributeError
| KeyError
| IndexError
| ValueError
| OverflowError.

Inductive result (A : Type) : Type :=
| Ok (a : A)
| Raise (e : exn).

Arguments Ok {A} a.
Arguments Raise {A} e.

Definition bind {A B : Type} (m : result A) (f : A -> result B) : result B :=
  match m with
  | Ok a => f a
  | Raise e => Raise e
  end.

Notation "x <- m ;; f" := (bind m (fun x => f))
  (at level 61, m at next level, right associativity).

(** A loop body that may raise, run over a list *)
Fixpoint for_each {A S : Type} (body : S -> A -> result S) (l : list A) (st : S)
  : result S :=
  match l with
  | [] => Ok st
  | x :: l' => st' <- body st x ;; for_each body l' st'
  end.

(** [len(v)] *)
Definition py_len (v : json) : result nat :=
  match v with
  | JStr s => Ok (List.length s)
  | JList l => Ok (List.length l)
  | JDict d => Ok (List.length d)
  | JNull | JBool _ | JInt _ | JFloat _ => Raise TypeError
  end.

End Exn.

Import Exn.

(* ================================================================== *)
(** * [privacy-shield.py] *)
(* ================================================================== *)

Module PrivacyShield.

Local Open Scope N_scope.
Local Open Scope re_scope.

Section Lambda.
Context {U : UnicodeTables}.

(** ** Configuration *)

(** [[-\s]] *)
Definition sep : char -> bool := either (chr 45) spc.

Definition israeli_id : regex :=
  WordB +++ rep 8 9 (Cls d09) +++ WordB.

Definition credit_card : regex :=
  WordB +++ times 4 (Cls dig) +++ Opt (Cls sep) +++ times 4 (Cls dig)
        +++ Opt (Cls sep) +++ times 4 (Cls dig) +++ Opt (Cls sep)
        +++ times 4 (Cls dig) +++ WordB.

Definition phone_mobile : regex :=
  WordB +++ word (lit "05") +++ Cls dig +++ Opt (Cls sep) +++ times 3 (Cls dig)
        +++ Opt (Cls sep) +++ times 4 (Cls dig) +++ WordB.

Definition email : regex :=
  plus (either az (either AZ (either d09 (oneof (lit "._%+-")))))
  +++ Cls (chr 64)
  +++ plus (either az (either AZ (either d09 (oneof (lit ".-")))))
  +++ Cls (chr 46)
  +++ atleast 2 (either az AZ).

Definition bank_account : regex :=
  WordB +++ rep 2 3 (Cls dig) +++ Opt (Cls sep) +++ times 3 (Cls dig)
        +++ Opt (Cls sep) +++ rep 6 9 (Cls dig) +++ WordB.

Definition PII_PATTERNS : list (str * (regex * str)) :=
  [ (lit "israeli_id",   (israeli_id,   lit "[ת.ז. הוסתר]"));
    (lit "credit_card",  (credit_card,  lit "[כ.אשראי הוסתר]"));
    (lit "phone_mobile", (phone_mobile, lit "[נייד הוסתר]"));
    (lit "email",        (email,        lit "[אימייל הוסתר]"));
    (lit "bank_account", (bank_account, lit "[חשבון בנק הוסתר]")) ].

(** [.] without [re.DOTALL] *)
Definition dot : char -> bool := non (chr LF).

Definition OCR_NOISE_PATTERNS : list regex :=
  [ iword (lit "scanned with camscanner") +++ Star dot;
    iword (lit "www.camscanner.com");
    Cls (range 8192 8207);
    Cls (oneof (lit "|~^§`®©™"));
    atleast 3 (chr 95) ].

Definition KEYWORDS_NORMAL : list str :=
  map lit ["חוזה"; "הסכם"; "שכירות"; "משכיר"; "שוכר"; "דירה"]%string.

Definition KEYWORDS_REVERSED : list str :=
  map lit ["הזוח"; "םכסה"; "תוריכש"; "ריכשמ"; "רכוש"; "הריד"]%string.

Definition CONTRACT_KEYWORDS : list (str * Z) :=
  [ (lit "חוזה שכירות", 20); (lit "הסכם שכירות", 20);
    (lit "המשכיר", 10); (lit "משגיר", 10); (lit "בעל הדירה", 10);
    (lit "השוכר", 10); (lit "השובר", 10);
    (lit "דמי שכירות", 15); (lit "תשלום חודשי", 10);
    (lit "תקופת השכירות", 10); (lit "תקופת האופציה", 5);
    (lit "פינוי", 5); (lit "ערבות", 5); (lit "צ'ק ביטחון", 5);
    (lit "בלתי מוגנת", 10) ]%Z.

Definition SECTION_HEADERS : list str :=
  map lit
  [ "מבוא"; "הואיל"; "לפיכך";
    "תקופת השכירות"; "תקופת האופציה"; "הארכת החוזה";
    "דמי השכירות"; "דמי שכירות"; "תשלומים";
    "מיסים, אגרות ותשלומים"; "מיסים ותשלומים";
    "השימוש והחזקה"; "השימוש במושכר"; "החזקת המושכר";
    "אחריות לנזק"; "אחריות"; "נזקים";
    "פינוי המושכר"; "פינוי הדירה"; "פינוי";
    "בטחונות"; "ערבויות"; "ערבות"; "ביטחונות";
    "הפרות"; "הפרה יסודית"; "ביטול ההסכם";
    "שונות"; "הוראות כלליות"; "כללי";
    "חתימות"; "חתימה" ]%string.

(** ** Helper functions *)

(** [sum(1 for word in keywords if word in text)] *)
Definition keyword_score (keywords : list str) (text : str) : nat :=
  list_sum (map (fun _ => 1%nat) (filter (fun word => contains word text) keywords)).

Definition detect_and_fix_direction (text : str) : str :=
  let score_normal := keyword_score KEYWORDS_NORMAL text in
  let score_reversed := keyword_score KEYWORDS_REVERSED text in
  if (score_normal <? score_reversed)%nat
  then join [LF] (map (@rev char) (split_on LF text))
  else text.

(** The text with the characters of every line in reverse order *)
Definition mirror (text : str) : str :=
  join [LF] (map (@rev char) (split_on LF text)).

(** The count as the specification words it: the occurrences of the
    keywords in the text, [sum(text.count(word) for word in keywords)] *)
Definition keyword_occurrences (keywords : list str) (text : str) : nat :=
  list_sum (map (fun word => count word text) keywords).

Definition mask_step (acc : str * list str) (entry : str * (regex * str))
  : str * list str :=
  let '(text, pii_found) := acc in
  let '(pii_type, (pattern, replacement)) := entry in
  if search pattern text
  then (sub pattern replacement text, pii_found ++ [pii_type])
  else (text, pii_found).

Definition sanitize_pii (text : str) : str * list str :=
  fold_left mask_step PII_PATTERNS (text, []).

Definition clean_ocr_noise (text : str) : str :=
  let text := fold_left (fun text pattern => sub pattern [SP] text)
                        OCR_NOISE_PATTERNS text in
  let text := sub (plus (oneof [SP; 9])) [SP] text in
  let text := sub (Cls (chr LF) +++ Star spc +++ Cls (chr LF) +++ Star spc
                   +++ plus (chr LF)) [LF; LF] text in
  strip text.

(** The units a money amount is followed by *)
Definition shekel_abbrev : regex :=
  Cls (chr 1513) +++ Opt (Cls (oneof (lit "״'"))) +++ Cls (chr 1495).

Definition not_money_long : regex :=
  NotAhead (plus (either d09 (chr 44)) +++ Star spc
            +++ (shekel_abbrev </> word (lit "₪") </> word (lit "שקל")
                 </> word (lit "אלף"))).

Definition not_money_short : regex :=
  NotAhead (plus (either d09 (chr 44)) +++ Star spc
            +++ (shekel_abbrev </> word (lit "₪"))).

Definition not_date : regex :=
  NotAhead (rep 1 2 (Cls d09) +++ Cls (oneof (lit "./")) +++ Cls d09).

Definition CLAUSE_NUMBER_PATTERN : regex :=
  (Bos </> Behind spc </> Behind (chr LF))
  +++ (rep 1 2 (Cls d09) </> Cls (range 1488 1497))
  +++ Cls (oneof (lit ".)"))
  +++ plus spc
  +++ not_money_long
  +++ not_date.

Definition split_pattern : regex :=
  Behind (non spc) +++ plus spc
  +++ rep 1 2 (Cls d09) +++ Cls (chr 46) +++ plus spc
  +++ not_money_short
  +++ not_date
  +++ Ahead (Cls (range 1424 1535)).

(** [len(s) > 15] *)
Definition long (s : str) : bool := (15 <? List.length s)%nat.

(** One turn of the line loop; the state is [(clauses, current_clause)]. *)
Definition group_line (st : list str * str) (line : str) : list str * str :=
  let '(clauses, current_clause) := st in
  let line := strip line in
  if negb (nonempty line) then st
  else
    let is_header := existsb (fun header => contains header line) SECTION_HEADERS in
    let is_numbered_clause := matches CLAUSE_NUMBER_PATTERN line in
    let is_new_clause := is_header || is_numbered_clause in
    if is_new_clause
    then
      (if nonempty current_clause && long (strip current_clause)
       then clauses ++ [strip current_clause] else clauses,
       line)
    else
      (clauses,
       if nonempty current_clause then current_clause ++ [SP] ++ line else line).

Definition group_lines (text : str) : list str :=
  let '(clauses, current_clause) :=
    fold_left group_line (split_on LF text) ([], []) in
  if nonempty current_clause && long (strip current_clause)
  then clauses ++ [strip current_clause] else clauses.

(** One turn of the loop over the split points of a clause; the state is
    [(final_clauses, prev_pos)]. *)
Definition cut_at (clause : str) (st : list str * nat) (pos : nat)
  : list str * nat :=
  let '(final_clauses, prev_pos) := st in
  let sub_clause := strip (slice clause prev_pos pos) in
  (if long sub_clause then final_clauses ++ [sub_clause] else final_clauses,
   S pos).

Definition resplit (final_clauses : list str) (clause : str) : list str :=
  let split_points := finditer_starts split_pattern clause in
  match split_points with
  | _ :: _ =>
    let '(final_clauses, prev_pos) :=
      fold_left (cut_at clause) split_points (final_clauses, O) in
    let last_part := strip (slice_from clause prev_pos) in
    if long last_part then final_clauses ++ [last_part] else final_clauses
  | [] =>
    if long clause then final_clauses ++ [clause] else final_clauses
  end.

(** A fragment the first two passes let through: a stripped string of
    more than 15 characters *)
Definition fragment (f : str) : Prop :=
  long f = true /\ exists y, f = strip y.

(** [^[\d\W]+$] *)
Definition no_letters : regex :=
  Bos +++ plus (either dig (non isword)) +++ Eos.

Definition cleanup (cleaned : list str) (clause : str) : list str :=
  let clause := strip (sub (plus spc) [SP] clause) in
  if negb (matches no_letters clause) then cleaned ++ [clause] else cleaned.

Definition split_to_clauses (text : str) : list str :=
  let clauses := group_lines text in
  let final_clauses := fold_left resplit clauses [] in
  fold_left cleanup final_clauses [].

Definition calculate_contract_confidence (text : str) : Z :=
  let text_lower := lower text in
  let score :=
    fold_left
      (fun score '(keyword, weight) =>
         if contains keyword text || contains keyword text_lower
         then (score + weight)%Z else score)
      CONTRACT_KEYWORDS 0%Z in
  Z.min 100 score.

(** ** Main handler *)

(** The Step Functions event: a value is [None] when the event has no
    such key *)
Record event := {
  extractedText : option json;
  contractId : option json;
  bucket : option json;
  key : option json
}.

Definition or_default (v : option json) (default : json) : json :=
  match v with Some x => x | None => default end.

(** [word in text] for a text that is a list or an object *)
Definition member (word : str) (text : json) : bool :=
  match text with
  | JList l =>
    existsb (fun x => match x with JStr s => str_eqb word s | _ => false end) l
  | JDict d => existsb (fun kv => str_eqb word (lit (fst kv))) d
  | _ => false
  end.

(** [sum(1 for word in keywords if word in text)] for such a text *)
Definition member_score (keywords : list str) (text : json) : nat :=
  List.length (filter (fun word => member word text) keywords).

(** The handler.  The length of the text is logged before the text is
    looked at; a text that is a non-empty list or object passes the
    keyword tests and then has no [split], or is refused by
    [pattern.search].  What the handler catches it raises again. *)
Definition lambda_handler (ev : event) : result dict :=
  let text := or_default (extractedText ev) (JStr []) in
  let contract_id := or_default (contractId ev) (JStr (lit "unknown")) in
  let bucket := or_default (bucket ev) JNull in
  let key := or_default (key ev) JNull in
  _ <- py_len text ;;
  if negb (truthy text)
  then
    Ok [ ("error", JStr (lit "No text extracted"));
         ("contractConfidence", JInt 0);
         ("sanitizedText", JStr []) ]%string
  else
    match text with
    | JStr text =>
      let text := detect_and_fix_direction text in
      let '(text, pii_found) := sanitize_pii text in
      let text := clean_ocr_noise text in
      let clauses_list := split_to_clauses text in
      let contract_confidence := calculate_contract_confidence text in
      Ok [ ("contractId", contract_id);
           ("sanitizedText", JStr text);
           ("clauses", JList (map JStr clauses_list));
           ("contractConfidence", JInt contract_confidence);
           ("piiFound", JList (map JStr pii_found));
           ("bucket", bucket);
           ("key", key) ]%string
    | _ =>
      if (member_score KEYWORDS_NORMAL text <? member_score KEYWORDS_REVERSED text)%nat
      then Raise AttributeError
      else Raise TypeError
    end.

(** The entry point of the specification: what the handler returns on
    an event that carries the text, a string, and nothing else. *)
Definition sanitize (rawText : str) : dict :=
  match lambda_handler {| extractedText := Some (JStr rawText);
                          contractId := None; bucket := None; key := None |} with
  | Ok result => result
  | Raise _ => []
  end.

Definition sanitizedText (result : dict) : option str :=
  match Dict.get "sanitizedText" result with
  | Some (JStr s) => Some s
  | _ => None
  end.

Fixpoint strs (l : list json) : list str :=
  match l with
  | [] => []
  | JStr s :: l' => s :: strs l'
  | _ :: l' => strs l'
  end.

(** The clauses of a result, none when it has no such entry *)
Definition clauses (result : dict) : list str :=
  match Dict.get "clauses" result with
  | Some (JList l) => strs l
  | _ => []
  end.

End Lambda.

End PrivacyShield.

(* ================================================================== *)
(** * [ai-analyzer.py]: [recalculate_scores] *)
(* ================================================================== *)

Module AiAnalyzer.

Local Open Scope string_scope.
Local Open Scope Z_scope.

(** Score tables: dictionaries from category names to integers, in
    insertion order *)
Definition table := list (string * Z).

Fixpoint tget (k : string) (t : table) : Z :=
  match t with
  | [] => 0
  | (k', v) :: t' => if String.eqb k k' then v else tget k t'
  end.

Fixpoint tset (k : string) (v : Z) (t : table) : table :=
  match t with
  | [] => [(k, v)]
  | (k', v') :: t' =>
    if String.eqb k k' then (k, v) :: t' else (k', v') :: tset k v t'
  end.

Section Lambda.
Context {U : UnicodeTables}.

(** ** [int(x)] *)

(** The whitespace [int] strips from a string *)
Definition int_space (c : char) : bool :=
  isspace c && negb ((28 <=? c)%N && (c <=? 31)%N).

(** Digits after a digit: more digits, each optionally after one
    underscore *)
Fixpoint digits_from (acc : Z) (s : str) : option Z :=
  match s with
  | [] => Some acc
  | c :: s' =>
    match todecimal c with
    | Some d => digits_from (acc * 10 + d) s'
    | None =>
      if (c =? 95)%N
      then match s' with
           | c2 :: s'' =>
             match todecimal c2 with
             | Some d => digits_from (acc * 10 + d) s''
             | None => None
             end
           | [] => None
           end
      else None
    end
  end.

Definition unsigned_of_str (s : str) : option Z :=
  match s with
  | c :: s' =>
    match todecimal c with
    | Some d => digits_from d s'
    | None => None
    end
  | [] => None
  end.

(** [sys.int_info.default_max_str_digits]: [int] refuses a string
    with more digits than this, leading zeros counted and underscores
    not *)
Definition INT_MAX_STR_DIGITS : N := 4300.

(** [int(s)] for a string, [None] where it raises [ValueError] *)
Definition int_of_str (s : str) : option Z :=
  let body := strip_of int_space s in
  if (INT_MAX_STR_DIGITS <? N.of_nat (List.length (filter isdecimal body)))%N
  then None
  else
    match body with
    | 43%N :: body => unsigned_of_str body
    | 45%N :: body => option_map Z.opp (unsigned_of_str body)
    | body => unsigned_of_str body
    end.

(** [int(x)] for a float: the value with its fraction cut off *)
Definition int_of_float (f : spec_float) : result Z :=
  match f with
  | S754_zero _ => Ok 0
  | S754_finite s m e =>
    let a := if 0 <=? e then Z.pos m * 2 ^ e else Z.pos m / 2 ^ (- e) in
    Ok (if s then - a else a)
  | S754_infinity _ => Raise OverflowError
  | S754_nan => Raise ValueError
  end.

(** [int(x)] *)
Definition py_int (v : json) : result Z :=
  match v with
  | JInt z => Ok z
  | JBool b => Ok (if b then 1 else 0)
  | JFloat f => int_of_float f
  | JStr s => match int_of_str s with Some z => Ok z | None => Raise ValueError end
  | JNull | JList _ | JDict _ => Raise TypeError
  end.

(** [try: penalty = int(issue.get('penalty_points', 0))
     except (ValueError, TypeError): penalty = 0] *)
Definition penalty_of (issue : dict) : result Z :=
  match py_int (Dict.get_default "penalty_points" (JInt 0) issue) with
  | Ok penalty => Ok penalty
  | Raise ValueError | Raise TypeError => Ok 0
  | Raise e => Raise e
  end.

(** ** Dynamic operations of the loop *)

(** [for issue in v] *)
Definition py_iter (v : json) : result (list json) :=
  match v with
  | JList l => Ok l
  | JStr s => Ok (map (fun c => JStr [c]) s)
  | JDict d => Ok (map (fun kv => JStr (lit (fst kv))) d)
  | JNull | JBool _ | JInt _ | JFloat _ => Raise TypeError
  end.

(** [v[0]] *)
Definition py_first (v : json) : result json :=
  match v with
  | JStr (c :: _) => Ok (JStr [c])
  | JList (x :: _) => Ok x
  | JStr [] | JList [] => Raise IndexError
  | JDict _ => Raise KeyError
  | JNull | JBool _ | JInt _ | JFloat _ => Raise TypeError
  end.

(** [v.upper()] *)
Definition py_upper (v : json) : result str :=
  match v with
  | JStr s => Ok (upper s)
  | _ => Raise AttributeError
  end.

(** [issue.get] *)
Definition py_dict (v : json) : result dict :=
  match v with
  | JDict d => Ok d
  | _ => Raise AttributeError
  end.

(** ** Configuration of the calculation *)

Definition category_scores_init : table :=
  [ ("financial_terms", 20);
    ("tenant_rights", 20);
    ("termination_clauses", 20);
    ("liability_repairs", 20);
    ("legal_compliance", 20) ].

Definition prefix_map : list (str * string) :=
  [ (lit "F", "financial_terms");
    (lit "T", "tenant_rights");
    (lit "E", "termination_clauses");
    (lit "L", "liability_repairs");
    (lit "C", "legal_compliance") ].

Fixpoint prefix_lookup (prefix : str) (m : list (str * string)) : option string :=
  match m with
  | [] => None
  | (k, v) :: m' => if str_eqb prefix k then Some v else prefix_lookup prefix m'
  end.

(** [{cat: 0 for cat in category_scores.keys()}] *)
Definition category_penalties_init : table :=
  map (fun kv => (fst kv, 0)) category_scores_init.

Record loop_state := {
  category_scores : table;
  category_penalties_sum : table;
  filtered_issues : list json
}.

(** The body of [for issue in analysis_json.get('issues', [])] *)
Definition score_issue (st : loop_state) (issue : json) : result loop_state :=
  d <- py_dict issue ;;
  let rule_id := Dict.get_default "rule_id" (JStr []) d in
  penalty <- penalty_of d ;;
  valid <-
    (if truthy rule_id
     then n <- py_len rule_id ;; Ok ((0 <? n)%nat && (0 <? penalty))
     else Ok false) ;;
  if valid : bool
  then
    first <- py_first rule_id ;;
    prefix <- py_upper first ;;
    let st :=
      match prefix_lookup prefix prefix_map with
      | Some category =>
        {| category_scores :=
             tset category (Z.max 0 (tget category (category_scores st) - penalty))
                  (category_scores st);
           category_penalties_sum :=
             tset category (tget category (category_penalties_sum st) + penalty)
                  (category_penalties_sum st);
           filtered_issues := filtered_issues st |}
      | None => st
      end in
    Ok {| category_scores := category_scores st;
          category_penalties_sum := category_penalties_sum st;
          filtered_issues := (filtered_issues st ++ [issue])%list |}
  else Ok st.

(** [sum(category_scores.values())] *)
Definition sum_values (t : table) : Z :=
  fold_left (fun acc kv => acc + snd kv) t 0.

(** The synchronized [score_breakdown] *)
Definition build_breakdown (scores penalties : table) : dict :=
  map (fun kv =>
         (fst kv,
          JDict [ ("score", JInt (snd kv));
                  ("penalties", JInt (tget (fst kv) penalties));
                  ("max", JInt 20) ]))
      scores.

Definition zero_breakdown : dict :=
  [ ("financial_terms", JDict [("score", JInt 0)]);
    ("tenant_rights", JDict [("score", JInt 0)]);
    ("termination_clauses", JDict [("score", JInt 0)]);
    ("liability_repairs", JDict [("score", JInt 0)]);
    ("legal_compliance", JDict [("score", JInt 0)]) ].

Definition recalculate_scores (analysis_json : dict) : result dict :=
  if negb (truthy (Dict.get_default "is_contract" (JBool true) analysis_json))
  then
    let analysis_json := Dict.set "overall_risk_score" (JInt 0) analysis_json in
    let analysis_json := Dict.set "score_breakdown" (JDict zero_breakdown) analysis_json in
    Ok analysis_json
  else
    issues <- py_iter (Dict.get_default "issues" (JList []) analysis_json) ;;
    st <- for_each score_issue issues
            {| category_scores := category_scores_init;
               category_penalties_sum := category_penalties_init;
               filtered_issues := [] |} ;;
    let overall_score := sum_values (category_scores st) in
    let score_breakdown :=
      build_breakdown (category_scores st) (category_penalties_sum st) in
    let analysis_json := Dict.set "issues" (JList (filtered_issues st)) analysis_json in
    let analysis_json := Dict.set "score_breakdown" (JDict score_breakdown) analysis_json in
    let analysis_json := Dict.set "overall_risk_score" (JInt overall_score) analysis_json in
    Ok analysis_json.

(** ** The call on an object

    [recalculate_scores] above gives the entries the dictionary has
    when the function returns.  The function does not build a new
    dictionary: it assigns into the one it is given, after the loop, and
    returns that same object.  A heap gives every object its entries;
    a call that raises has assigned nothing. *)




(** ** The calculation as the specification words it *)

Definition CATEGORIES : list string :=
  [ "financial_terms"; "tenant_rights"; "termination_clauses";
    "liability_repairs"; "legal_compliance" ].

(** The rule identifier of an issue, empty when there is none *)
Definition rule_id_of (d : dict) : str :=
  match Dict.get "rule_id" d with
  | Some (JStr s) => s
  | _ => []
  end.

(** An issue record: an object whose rule identifier, when it has one,
    is a string or null.  Its penalty may be anything. *)
Definition well_formed (issue : json) : bool :=
  match issue with
  | JDict d =>
    match Dict.get "rule_id" d with
    | None | Some (JStr _) | Some JNull => true
    | Some _ => false
    end
  | _ => false
  end.

(** The penalty of an issue as an integer: what [int] makes of it, and
    0 where the conversion raises *)
Definition penalty_points (d : dict) : Z :=
  match penalty_of d with
  | Ok penalty => penalty
  | Raise _ => 0
  end.

(** A penalty that is an infinite float, as [json.loads] reads
    [Infinity], [-Infinity] and numbers beyond the doubles *)
Definition infinite_penalty (issue : json) : bool :=
  match issue with
  | JDict d =>
    match Dict.get "penalty_points" d with
    | Some (JFloat (S754_infinity _)) => true
    | _ => false
    end
  | _ => false
  end.

(** Non-empty rule identifier and a penalty that converts to an integer
    strictly greater than 0 *)
Definition accepted (issue : json) : bool :=
  match issue with
  | JDict d => nonempty (rule_id_of d) && (0 <? penalty_points d)
  | _ => false
  end.

(** The category the uppercased first character of the rule identifier
    maps to *)
Definition category_of (issue : json) : option string :=
  match issue with
  | JDict d =>
    match rule_id_of d with
    | c :: _ => prefix_lookup (upper [c]) prefix_map
    | [] => None
    end
  | _ => None
  end.

(** What an issue takes from a category: its parsed penalty when it is
    accepted and maps to the category, nothing otherwise *)
Definition deduction (cat : string) (issue : json) : Z :=
  match issue with
  | JDict d =>
    if accepted issue
    then match category_of issue with
         | Some c => if String.eqb c cat then penalty_points d else 0
         | None => 0
         end
    else 0
  | _ => 0
  end.

Fixpoint penalties_in (cat : string) (issues : list json) : Z :=
  match issues with
  | [] => 0
  | i :: issues' => deduction cat i + penalties_in cat issues'
  end.

(** The loop body on an issue record, without the exceptions *)
Definition apply_issue (st : loop_state) (issue : json) : loop_state :=
  match issue with
  | JDict d =>
    if accepted issue
    then
      let st1 :=
        match category_of issue with
        | Some category =>
          {| category_scores :=
               tset category
                    (Z.max 0 (tget category (category_scores st) - penalty_points d))
                    (category_scores st);
             category_penalties_sum :=
               tset category
                    (tget category (category_penalties_sum st) + penalty_points d)
                    (category_penalties_sum st);
             filtered_issues := filtered_issues st |}
        | None => st
        end in
      {| category_scores := category_scores st1;
         category_penalties_sum := category_penalties_sum st1;
         filtered_issues := (filtered_issues st1 ++ [issue])%list |}
    else st
  | _ => st
  end.




Definition sumZ (l : list Z) : Z := fold_right Z.add 0 l.

(** Reading the result *)
Definition breakdown_entry (r : dict) (cat field : string) : option json :=
  match Dict.get "score_breakdown" r with
  | Some (JDict b) =>
    match Dict.get cat b with
    | Some (JDict e) => Dict.get field e
    | _ => None
    end
  | _ => None
  end.

End Lambda.

End AiAnalyzer.

(* ================================================================== *)
(** * Sample inputs *)
(* ================================================================== *)

Module Samples.

Local Open Scope string_scope.
Local Open Scope Z_scope.

Definition issue (rule_id : string) (penalty_points : json) : json :=
  JDict [ ("rule_id", JStr (lit rule_id)); ("penalty_points", penalty_points) ].

(** Two financial issues that together exceed the category's 20 points *)
Definition over_penalised_issues : list json :=
  [ issue "F1" (JInt 10); issue "F4" (JInt 15) ].

Definition over_penalised : dict :=
  [ ("is_contract", JBool true); ("issues", JList over_penalised_issues) ].

(** An issue without a rule identifier and one with an unknown prefix *)
Definition unmapped_issues : list json :=
  [ issue EmptyString (JInt 5); issue "Z9" (JInt 5) ].

Definition unmapped : dict :=
  [ ("is_contract", JBool true); ("issues", JList unmapped_issues) ].

(** The same with the document flagged as not a contract *)
Definition not_a_contract : dict :=
  [ ("is_contract", JBool false); ("issues", JList unmapped_issues) ].


(** A card number whose groups are two spaces apart *)
Definition spaced_card : str := lit "1234  5678  9012  3456".

(** Three occurrences of one normal keyword, one occurrence each of two
    reversed keywords *)
Definition mixed_direction : str := lit "חוזה חוזה חוזה הזוח םכסה".

(** A line of reversed keywords *)
Definition mirrored_line : str := lit "הזוח תוריכש".

(** Nineteen characters, eight of them carriage returns in a row *)
Definition spread_out : str :=
  (lit "abcdefgh" ++ repeat 13%N 8 ++ lit "ijk")%list.

(** Pairs of underscores *)
Definition underscores : str := lit "__ __ __ __ __ __".

(** A numbered clause over two lines *)
Definition numbered_clause : str := lit "1. חוזה שכירות
המשכיר מתחייב".


Definition empty_text : PrivacyShield.event :=
  {| PrivacyShield.extractedText := Some (JStr []);
     PrivacyShield.contractId := None;
     PrivacyShield.bucket := None;
     PrivacyShield.key := None |}.


(** The float that [json.loads] reads from [1e999] or [Infinity] *)
Definition infinity : json := JFloat (S754_infinity false).

(** A financial issue with an infinite penalty, alone and after another *)
Definition infinite_issues : list json := [ issue "F1" infinity ].

Definition infinite : dict :=
  [ ("is_contract", JBool true); ("issues", JList infinite_issues) ].



End Samples.

(* ================================================================== *)
(** * More of the string and pattern operations *)
(* ================================================================== *)

Module PyMore.

Local Open Scope N_scope.

(** [a <= b] on strings: by code points, a proper prefix first *)
Fixpoint str_leb (a b : str) : bool :=
  match a, b with
  | [], _ => true
  | _ :: _, [] => false
  | x :: a', y :: b' => (x <? y) || ((x =? y) && str_leb a' b')
  end.

(** [s.endswith(suffix)] *)
Definition endswith (suffix s : str) : bool :=
  startswith (rev suffix) (rev s).

(** [s.replace(old, new)] for a non-empty [old]: the occurrences are
    taken left to right, without overlap.  [skip] characters of the
    current occurrence remain to be dropped. *)
Fixpoint replace_from (old new s : str) (skip : nat) : str :=
  match s with
  | [] => []
  | c :: s' =>
    match skip with
    | S k => replace_from old new s' k
    | O =>
      if startswith old s
      then new ++ replace_from old new s' (Nat.pred (List.length old))
      else c :: replace_from old new s' 0
    end
  end.

Definition replace (old new s : str) : str := replace_from old new s 0.

(** [sum(1 for c in s if test(c))] *)
Definition count_if (test : char -> bool) (s : str) : nat :=
  list_sum (map (fun _ => 1%nat) (filter test s)).

(** [s[i:-j]] for [0 <= i], [0 < j] *)
Definition slice_inner (s : str) (i j : nat) : str :=
  slice s i (List.length s - j).

(** No two neighbours of [l] are both in the set [p] *)
Fixpoint adjacent_free (p : char -> bool) (l : str) : bool :=
  match l with
  | a :: (b :: _) as l' => negb (p a && p b) && adjacent_free p l'
  | _ => true
  end.

(** [l] with every run of characters of [p] replaced by [repl];
    [in_run] tells that the run has begun *)
Fixpoint squeeze (p : char -> bool) (repl : str) (in_run : bool) (l : str) : str :=
  match l with
  | [] => []
  | c :: l' =>
    if p c
    then (if in_run then [] else repl) ++ squeeze p repl true l'
    else c :: squeeze p repl false l'
  end.

(** The first and the last character of a non-empty string *)
Definition first_char (s : str) : option char := hd_error s.
Definition last_char (s : str) : option char := hd_error (rev s).

(** [a] is [b] with some of its elements left out, the order kept *)
Inductive subseq {A : Type} : list A -> list A -> Prop :=
| subseq_nil : subseq [] []
| subseq_keep x a b : subseq a b -> subseq (x :: a) (x :: b)
| subseq_drop x a b : subseq a b -> subseq a (x :: b).

End PyMore.

Import PyMore.

Module ReMore.

Section Matcher.
Context {U : UnicodeTables}.

(** [pattern.search(s).group(0)], [None] without a match *)
Fixpoint find_from (r : regex) (prev : option char) (s : str) : option str :=
  match match_at r prev s with
  | Some rest => Some (firstn (List.length s - List.length rest) s)
  | None =>
    match s with
    | [] => None
    | c :: s' => find_from r (Some c) s'
    end
  end.

Definition find (r : regex) (s : str) : option str := find_from r None s.

End Matcher.

End ReMore.

Import ReMore.

(** [d.setdefault(k, v)] *)
Definition setdefault (k : string) (v : json) (d : dict) : dict :=
  match Dict.get k d with
  | Some _ => d
  | None => Dict.set k v d
  end.

(* ================================================================== *)
(** * [privacy-shield.py]: what the statements below speak of *)
(* ================================================================== *)

Module PrivacyTerms.

Import PrivacyShield.
Local Open Scope N_scope.

(** The labels of [PII_PATTERNS], in the order of the table *)
Definition PII_LABELS : list str :=
  map lit ["israeli_id"; "credit_card"; "phone_mobile"; "email"; "bank_account"]%string.

(** A character no PII pattern can start on or pass: not a digit for
    the tables or for [[0-9]], and not the at sign *)
Definition plain {U : UnicodeTables} (c : char) : bool :=
  negb (d09 c) && negb (isdecimal c) && negb (c =? 64).

(** The characters of the third and fourth noise patterns *)
Definition noise_char (c : char) : bool :=
  range 8192 8207 c || oneof (lit "|~^§`®©™") c.

(** [[ \t]] *)
Definition blank (c : char) : bool := oneof [SP; 9] c.

(** The lengths of the lines with their line ends *)
Definition line_budget (lines : list str) : nat :=
  list_sum (map (fun l => S (List.length l)) lines).

End PrivacyTerms.

(* ================================================================== *)
(** * [ai-analyzer.py]: the helpers and the handler *)
(* ================================================================== *)

Module Analyzer.

Import AiAnalyzer.
Local Open Scope string_scope.
Local Open Scope N_scope.

Definition MODEL_ID : str := lit "us.anthropic.claude-haiku-4-5-20251001-v1:0".

Definition MAX_TEXT_LENGTH : nat := N.to_nat 25000.

(** [create_fallback_response(error_message)] *)
Definition create_fallback_response (error_message : str) : dict :=
  [ ("is_contract", JBool true);
    ("overall_risk_score", JInt 50);
    ("score_breakdown",
     JDict [ ("financial_terms", JDict [("score", JInt 10)]);
             ("tenant_rights", JDict [("score", JInt 10)]);
             ("termination_clauses", JDict [("score", JInt 10)]);
             ("liability_repairs", JDict [("score", JInt 10)]);
             ("legal_compliance", JDict [("score", JInt 10)]) ]);
    ("summary", JStr (lit "הניתוח הושלם אך יש שגיאת פורמט."));
    ("issues", JList []);
    ("parse_error", JStr error_message) ].

(** What leaves the handler: the returned dictionary, or the exception
    it lets through *)
Inductive failure : Type :=
| CallFailed (message : str)
| Python (e : exn).

Inductive outcome : Type :=
| Returned (d : dict)
| Raised (f : failure).

(** The Step Functions event of the analyzer *)
Record event := {
  sanitizedText : option str;
  extractedText : option str;
  contractId : option json;
  bucket : option json;
  key : option json;
  clauses : option json
}.

Section Lambda.
Context {U : UnicodeTables}.

(** [json.loads] on a text that starts with a brace: the object, or the
    message of the error it raises.  The library is not part of the
    repository. *)
Variable json_loads : str -> str + dict.

(** [other_count / total_letters > 0.3], a comparison of floating-point
    numbers, taken as it comes *)
Variable ratio_exceeds : nat -> nat -> bool.

(** The Bedrock call: model, system prompt and the text of the user
    message give the answer of the model, or the message of the error
    the call raises *)
Variable call_bedrock : str -> str -> str -> str + str.

(** The system prompt: a constant text built from the knowledge base
    and the severity guide; the contract text is no part of it *)
Variable system_prompt : str.

(** [[\x00-\x08\x0b\x0c\x0e-\x1f]] *)
Definition control_char (c : char) : bool :=
  range 0 8 c || (c =? 11) || (c =? 12) || range 14 31 c.

(** [\{.*\}] under [re.DOTALL] *)
Definition braces : regex :=
  (Cls (chr 123) +++ Star (fun _ => true) +++ Cls (chr 125))%re.

(** The text handed to [json.loads], or the message of the
    [ValueError].  A carriage return becomes the two characters
    backslash and [n]. *)
Definition json_text (ai_output_text : str) : str + str :=
  let clean_text :=
    strip (replace (lit "```") [] (replace (lit "```json") [] ai_output_text)) in
  match find braces clean_text with
  | None => inl (lit "No JSON found")
  | Some json_str =>
    let json_str := sub (Cls control_char) [] json_str in
    let json_str := replace [13] (lit "\n") (replace [13; 10] (lit "\n") json_str) in
    inr json_str
  end.

Definition parse_json_response (ai_output_text : str) : str + dict :=
  match json_text ai_output_text with
  | inl message => inl message
  | inr json_str =>
    match json_loads json_str with
    | inl message => inl message
    | inr data =>
      let data := setdefault "is_contract" (JBool true) data in
      let data := setdefault "issues" (JList []) data in
      let data := setdefault "summary" (JStr (lit "הניתוח הושלם.")) data in
      inr data
    end
  end.

Definition hebrew (c : char) : bool := (1424 <=? c) && (c <=? 1535).

Definition detect_language (text : str) : str :=
  if negb (nonempty text) || (List.length text <? 100)%nat
  then lit "unknown"
  else
    let sample := firstn 2000 text in
    let hebrew_count := count_if hebrew sample in
    let english_count :=
      count_if (fun c => str_leb [97] (lower [c]) && str_leb (lower [c]) [122])
               sample in
    let other_count := count_if (fun c => (127 <? c) && negb (hebrew c)) sample in
    let total_letters := (hebrew_count + english_count + other_count)%nat in
    if (total_letters =? 0)%nat then lit "unknown"
    else if ratio_exceeds other_count total_letters then lit "unsupported"
    else lit "supported".

Definition or_default (v : option json) (default : json) : json :=
  match v with Some x => x | None => default end.

(** [sanitized_text[:MAX_TEXT_LENGTH] + "... [Truncated]"] for a text
    over the limit *)
Definition truncate (sanitized_text : str) : str :=
  if (MAX_TEXT_LENGTH <? List.length sanitized_text)%nat
  then (firstn MAX_TEXT_LENGTH sanitized_text ++ lit "... [Truncated]")%list
  else sanitized_text.

Definition user_text (sanitized_text : str) : str :=
  (lit "נתח את חוזה השכירות הבא:

<contract>
" ++ sanitized_text ++ lit "
</contract>")%list.

(** [event.get('sanitizedText') or event.get('extractedText', '')] *)
Definition input_text (ev : event) : str :=
  match sanitizedText ev with
  | Some (c :: s) => c :: s
  | _ => match extractedText ev with Some t => t | None => [] end
  end.

Definition lambda_handler (ev : event) : outcome :=
  let sanitized_text := input_text ev in
  let contract_id := or_default (contractId ev) (JStr (lit "unknown")) in
  let bucket := or_default (bucket ev) JNull in
  let key := or_default (key ev) JNull in
  let clauses_list := or_default (clauses ev) (JList []) in
  if negb (nonempty sanitized_text)
  then
    Returned
      [ ("contractId", contract_id);
        ("analysis_result",
         JDict [ ("error", JStr (lit "No text"));
                 ("is_contract", JBool false);
                 ("overall_risk_score", JInt 0);
                 ("issues", JList []) ]);
        ("bucket", bucket); ("key", key); ("clauses", clauses_list);
        ("sanitizedText", JStr []) ]
  else if str_eqb (detect_language sanitized_text) (lit "unsupported")
  then
    Returned
      [ ("contractId", contract_id);
        ("analysis_result",
         JDict [ ("error", JStr (lit "המסמך בשפה לא נתמכת"));
                 ("error_en", JStr (lit "Document is in an unsupported language"));
                 ("is_contract", JBool false);
                 ("overall_risk_score", JInt 0);
                 ("issues", JList []);
                 ("summary",
                  JStr (lit "המערכת תומכת רק בחוזים בעברית או באנגלית.")) ]);
        ("bucket", bucket); ("key", key); ("clauses", clauses_list);
        ("sanitizedText", JStr sanitized_text) ]
  else
    let sanitized_text := truncate sanitized_text in
    match call_bedrock MODEL_ID system_prompt (user_text sanitized_text) with
    | inl message => Raised (CallFailed message)
    | inr ai_output =>
      let analysis :=
        match parse_json_response ai_output with
        | inr data => data
        | inl message => create_fallback_response message
        end in
      match recalculate_scores analysis with
      | Raise e => Raised (Python e)
      | Ok analysis =>
        Returned
          [ ("contractId", contract_id);
            ("analysis_result", JDict analysis);
            ("bucket", bucket); ("key", key); ("clauses", clauses_list);
            ("sanitizedText", JStr sanitized_text) ]
      end
    end.

End Lambda.

(** A brace, and a text with an opening brace before a closing one *)
Definition brace (c : char) : bool := (c =? 123) || (c =? 125).

Fixpoint brace_pair (s : str) : bool :=
  match s with
  | [] => false
  | c :: s' => if c =? 123 then existsb (N.eqb 125) s' else brace_pair s'
  end.

(** The values [parse_json_response] gives to the keys the answer of
    the model leaves out *)
Definition DEFAULTS : dict :=
  [ ("is_contract", JBool true);
    ("issues", JList []);
    ("summary", JStr (lit "הניתוח הושלם.")) ].

(** The comparison of the quotient with 0.3 on the exact fractions *)
Definition exact_ratio_exceeds (other_count total_letters : nat) : bool :=
  (3 * total_letters <? 10 * other_count)%nat.

End Analyzer.

(* ================================================================== *)
(** * [save-results.py]: the keys of the stored contracts *)
(* ================================================================== *)

Module SaveResults.

Local Open Scope N_scope.

(** [extract_user_id_from_key(s3_key)]; a key that is [None] makes
    [split] raise, which the function catches *)
Definition extract_user_id_from_key (s3_key : option str) : option str :=
  match s3_key with
  | None => None
  | Some k =>
    let parts := split_on 47 k in
    match parts with
    | p0 :: p1 :: _ :: _ => if str_eqb p0 (lit "uploads") then Some p1 else None
    | _ => None
    end
  end.

(** [extract_contract_id_from_key(s3_key)] *)
Definition extract_contract_id_from_key (s3_key : option str) : option str :=
  match s3_key with
  | None => None
  | Some k =>
    let parts := split_on 47 k in
    if (3 <=? List.length parts)%nat
    then
      let filename := last parts [] in
      if startswith (lit "contract-") filename && endswith (lit ".pdf") filename
      then Some (slice_inner filename 9 4)
      else None
    else None
  end.

(** The key of an upload: [uploads/{userId}/contract-{uuid}.pdf] *)
Definition upload_key (user_id uuid : str) : str :=
  (lit "uploads/" ++ user_id ++ lit "/contract-" ++ uuid ++ lit ".pdf")%list.

End SaveResults.

(* ================================================================== *)
(** * More sample inputs *)
(* ================================================================== *)

Module MoreSamples.

Local Open Scope string_scope.
Local Open Scope N_scope.

(** A letter, a noise character, a letter *)
Definition noisy : str := lit "a|b".

(** Letters only *)
Definition letters : str := lit "abc".

(** A numbered line of six characters, and a numbered clause *)
Definition brief : str := lit "1. abc".
Definition one_clause : str := lit "1. חוזה שכירות המשכיר מתחייב".

(** A hundred letters, and two texts that part after 2000 letters *)
Definition hundred : str := repeat 97 100.
Definition long_latin : str := (repeat 97 2000 ++ [98])%list.
Definition long_other : str := (repeat 97 2000 ++ [26085])%list.

(** An answer with an empty object, and one without any *)
Definition empty_object : str := lit "Here: {} .".
Definition no_object : str := lit "I cannot answer.".

(** An analysis whose issues entry is null *)
Definition null_issues : dict := [("issues", JNull)].

(** Events of the analyzer: without text, and with a short text *)
Definition no_input : Analyzer.event :=
  {| Analyzer.sanitizedText := None;
     Analyzer.extractedText := None;
     Analyzer.contractId := None;
     Analyzer.bucket := None;
     Analyzer.key := None;
     Analyzer.clauses := None |}.

Definition short_input : Analyzer.event :=
  {| Analyzer.sanitizedText := Some (lit "abc");
     Analyzer.extractedText := None;
     Analyzer.contractId := Some (JStr (lit "c-1"));
     Analyzer.bucket := None;
     Analyzer.key := None;
     Analyzer.clauses := None |}.

(** A [json.loads] that reads every text as the empty object, and a
    model that gives one answer *)
Definition loads_empty : str -> str + dict := fun _ => inr [].
Definition answers (answer : str) : str -> str -> str -> str + str :=
  fun _ _ _ => inr answer.

(** A user identifier and a contract identifier *)
Definition user : str := lit "u-1".
Definition contract : str := lit "0a1b".

End MoreSamples.

(* ================================================================== *)
(** * Properties of the dictionaries *)
(* ================================================================== *)

Module DictFacts.

Lemma get_set_same k v d : Dict.get k (Dict.set k v d) = Some v.
Proof.
  induction d as [|[k' v'] d IH]; simpl.
  - now rewrite String.eqb_refl.
  - destruct (String.eqb k k') eqn:E; simpl.
    + now rewrite String.eqb_refl.
    + now rewrite E.
Qed.

Lemma get_set_other k k' v d :
  k' <> k -> Dict.get k' (Dict.set k v d) = Dict.get k' d.
Proof.
  intros Hne. induction d as [|[k0 v0] d IH]; simpl.
  - destruct (String.eqb k' k) eqn:E;
      [apply String.eqb_eq in E; contradiction | reflexivity].
  - destruct (String.eqb k k0) eqn:E; simpl.
    + apply String.eqb_eq in E; subst k0.
      destruct (String.eqb k' k) eqn:E';
        [apply String.eqb_eq in E'; contradiction | reflexivity].
    + destruct (String.eqb k' k0); [reflexivity | exact IH].
Qed.

Lemma set_get_same k v d : Dict.get k d = Some v -> Dict.set k v d = d.
Proof.
  induction d as [|[k' v'] d IH]; simpl; [discriminate|].
  destruct (String.eqb k k') eqn:E.
  - apply String.eqb_eq in E. subst. now intros [= ->].
  - intros H. now rewrite IH.
Qed.

End DictFacts.

(* ================================================================== *)
(** * Properties of [recalculate_scores] *)
(* ================================================================== *)

Module ScoreFacts.

Import AiAnalyzer.
Local Open Scope string_scope.
Local Open Scope Z_scope.

Lemma tget_tset_same k v t : tget k (tset k v t) = v.
Proof.
  induction t as [|[k' v'] t IH]; simpl.
  - now rewrite String.eqb_refl.
  - destruct (String.eqb k k') eqn:E; simpl.
    + now rewrite String.eqb_refl.
    + now rewrite E.
Qed.

Lemma tget_tset_other k k' v t : k' <> k -> tget k' (tset k v t) = tget k' t.
Proof.
  intros Hne. induction t as [|[k0 v0] t IH]; simpl.
  - destruct (String.eqb k' k) eqn:E;
      [apply String.eqb_eq in E; contradiction | reflexivity].
  - destruct (String.eqb k k0) eqn:E; simpl.
    + apply String.eqb_eq in E; subst k0.
      destruct (String.eqb k' k) eqn:E';
        [apply String.eqb_eq in E'; contradiction | reflexivity].
    + destruct (String.eqb k' k0); [reflexivity | exact IH].
Qed.

Lemma keys_tset k v t : In k (map fst t) -> map fst (tset k v t) = map fst t.
Proof.
  induction t as [|[k' v'] t IH]; simpl; intros Hin.
  - contradiction.
  - destruct (String.eqb k k') eqn:E; simpl.
    + apply String.eqb_eq in E. now subst.
    + f_equal. apply IH. destruct Hin as [->|Hin]; [|exact Hin].
      now rewrite String.eqb_refl in E.
Qed.

Section Calculation.
Context {U : UnicodeTables}.

(** The conversion of the penalty raises on an infinite float and on
    nothing else. *)
Lemma penalty_of_infinite d :
  infinite_penalty (JDict d) = true -> penalty_of d = Raise OverflowError.
Proof.
  unfold infinite_penalty, penalty_of, Dict.get_default.
  destruct (Dict.get "penalty_points" d) as [[| | |f| | |]|]; try discriminate.
  destruct f; try discriminate. reflexivity.
Qed.

Lemma penalty_of_finite d :
  infinite_penalty (JDict d) = false -> penalty_of d = Ok (penalty_points d).
Proof.
  unfold penalty_points, infinite_penalty, penalty_of, Dict.get_default, py_int.
  destruct (Dict.get "penalty_points" d) as [[| | |f|s| |]|]; try reflexivity.
  - destruct f; try reflexivity. discriminate.
  - intros _. destruct (int_of_str s); reflexivity.
Qed.

Lemma penalty_of_cases d :
  (infinite_penalty (JDict d) = true /\ penalty_of d = Raise OverflowError) \/
  (infinite_penalty (JDict d) = false /\ penalty_of d = Ok (penalty_points d)).
Proof.
  destruct (infinite_penalty (JDict d)) eqn:E.
  - left. split; [reflexivity | now apply penalty_of_infinite].
  - right. split; [reflexivity | now apply penalty_of_finite].
Qed.

Lemma score_issue_well_formed st issue :
  well_formed issue = true -> infinite_penalty issue = false ->
  score_issue st issue = Ok (apply_issue st issue).
Proof.
  destruct issue as [| | | | | |d]; try discriminate.
  intros Hwf Hfin. unfold score_issue. cbn [py_dict bind].
  rewrite (penalty_of_finite d Hfin). cbn [bind].
  unfold apply_issue, accepted, category_of, rule_id_of, Dict.get_default.
  cbn [well_formed] in Hwf.
  destruct (Dict.get "rule_id" d) as [[| | | |s| |]|]; try discriminate;
    try reflexivity.
  destruct s as [|c s]; [reflexivity|].
  cbn [truthy py_len bind List.length Nat.ltb Nat.leb andb nonempty].
  destruct (0 <? penalty_points d); reflexivity.
Qed.

Lemma score_issue_infinite st issue :
  well_formed issue = true -> infinite_penalty issue = true ->
  score_issue st issue = Raise OverflowError.
Proof.
  destruct issue as [| | | | | |d]; try discriminate.
  intros _ Hinf. unfold score_issue. cbn [py_dict bind].
  now rewrite (penalty_of_infinite d Hinf).
Qed.

Lemma for_each_well_formed issues : forall st,
  forallb well_formed issues = true ->
  existsb infinite_penalty issues = false ->
  for_each score_issue issues st = Ok (fold_left apply_issue issues st).
Proof.
  induction issues as [|i issues IH]; intros st Hwf Hfin;
    cbn [forallb existsb for_each fold_left] in *.
  - reflexivity.
  - apply andb_true_iff in Hwf as [Hi Hrest].
    apply orb_false_iff in Hfin as [Hf Hfin].
    rewrite (score_issue_well_formed st _ Hi Hf). cbn [bind]. now apply IH.
Qed.

(** An infinite penalty among issue records stops the loop. *)
Lemma for_each_infinite issues : forall st,
  forallb well_formed issues = true ->
  existsb infinite_penalty issues = true ->
  for_each score_issue issues st = Raise OverflowError.
Proof.
  induction issues as [|i issues IH]; intros st Hwf Hinf;
    cbn [forallb existsb for_each] in *; [discriminate|].
  apply andb_true_iff in Hwf as [Hi Hrest].
  destruct (infinite_penalty i) eqn:E.
  - now rewrite (score_issue_infinite st i Hi E).
  - rewrite (score_issue_well_formed st i Hi E). cbn [bind orb] in *.
    now apply IH.
Qed.

Lemma prefix_lookup_category p c :
  prefix_lookup p prefix_map = Some c -> In c CATEGORIES.
Proof.
  unfold prefix_map, CATEGORIES. simpl.
  repeat (match goal with
          | |- context [if ?b then _ else _] => destruct b
          end; [intros [= <-]; simpl; tauto|]).
  discriminate.
Qed.

Lemma str_eqb_eq a : forall b, str_eqb a b = true <-> a = b.
Proof.
  induction a as [|x a IH]; intros [|y b]; simpl; split; try easy.
  - intros H. apply andb_true_iff in H as [Hx Hab].
    apply N.eqb_eq in Hx. apply IH in Hab. now subst.
  - intros [= -> ->]. rewrite N.eqb_refl. simpl. now apply IH.
Qed.


Lemma deduction_nonneg cat issue : 0 <= deduction cat issue.
Proof.
  unfold deduction. destruct issue; try lia.
  destruct (accepted (JDict d)) eqn:Ha; [|lia].
  destruct (category_of (JDict d)); [|lia].
  destruct (String.eqb s cat); [|lia].
  simpl in Ha. apply andb_true_iff in Ha as [_ Hp].
  apply Z.ltb_lt in Hp. lia.
Qed.

Lemma penalties_in_nonneg cat issues : 0 <= penalties_in cat issues.
Proof.
  induction issues as [|i issues IH]; simpl; [lia|].
  pose proof (deduction_nonneg cat i). lia.
Qed.

(** What the loop leaves in its three accumulators *)
Lemma loop_invariant issues : forall st,
  map fst (category_scores st) = CATEGORIES ->
  map fst (category_penalties_sum st) = CATEGORIES ->
  (forall cat, 0 <= tget cat (category_scores st)) ->
  let st' := fold_left apply_issue issues st in
  map fst (category_scores st') = CATEGORIES /\
  map fst (category_penalties_sum st') = CATEGORIES /\
  filtered_issues st' = (filtered_issues st ++ filter accepted issues)%list /\
  forall cat,
    tget cat (category_scores st')
      = Z.max 0 (tget cat (category_scores st) - penalties_in cat issues) /\
    tget cat (category_penalties_sum st')
      = tget cat (category_penalties_sum st) + penalties_in cat issues.
Proof.
  induction issues as [|i issues IH]; intros st Hks Hkp Hpos; simpl.
  - repeat split; try assumption.
    + now rewrite app_nil_r.
    + specialize (Hpos cat). lia.
    + lia.
  - assert (Hstep :
      map fst (category_scores (apply_issue st i)) = CATEGORIES /\
      map fst (category_penalties_sum (apply_issue st i)) = CATEGORIES /\
      filtered_issues (apply_issue st i)
        = (filtered_issues st ++ (if accepted i then [i] else []))%list /\
      forall cat,
        tget cat (category_scores (apply_issue st i))
          = Z.max 0 (tget cat (category_scores st) - deduction cat i) /\
        tget cat (category_penalties_sum (apply_issue st i))
          = tget cat (category_penalties_sum st) + deduction cat i).
    { unfold apply_issue, deduction.
      destruct i as [| | | | | |d];
        try (simpl; rewrite app_nil_r; repeat split; auto;
             try (specialize (Hpos cat); lia); lia).
      destruct (accepted (JDict d)) eqn:Ha.
      2:{ simpl; rewrite app_nil_r; repeat split; auto;
          try (specialize (Hpos cat); lia); lia. }
      destruct (category_of (JDict d)) as [c|] eqn:Hc.
      2:{ simpl; repeat split; auto; try (specialize (Hpos cat); lia); try lia. }
      assert (Hin : In c CATEGORIES).
      { unfold category_of in Hc. destruct (rule_id_of d); [discriminate|].
        eapply prefix_lookup_category; exact Hc. }
      simpl. repeat split.
      - rewrite keys_tset; [assumption | now rewrite Hks].
      - rewrite keys_tset; [assumption | now rewrite Hkp].
      - destruct (String.eqb c cat) eqn:E.
        + apply String.eqb_eq in E; subst. now rewrite tget_tset_same.
        + rewrite tget_tset_other.
          * specialize (Hpos cat). lia.
          * intros ->. now rewrite String.eqb_refl in E.
      - destruct (String.eqb c cat) eqn:E.
        + apply String.eqb_eq in E; subst. now rewrite tget_tset_same.
        + rewrite tget_tset_other; [lia|].
          intros ->. now rewrite String.eqb_refl in E. }
    destruct Hstep as (Hks1 & Hkp1 & Hf1 & Hval1).
    assert (Hpos1 : forall cat, 0 <= tget cat (category_scores (apply_issue st i))).
    { intros cat. destruct (Hval1 cat) as [-> _]. lia. }
    destruct (IH _ Hks1 Hkp1 Hpos1) as (Hks2 & Hkp2 & Hf2 & Hval2).
    repeat split; try assumption.
    + rewrite Hf2, Hf1, <- app_assoc. f_equal.
      destruct (accepted i); reflexivity.
    + destruct (Hval2 cat) as [-> _]. destruct (Hval1 cat) as [-> _].
      pose proof (deduction_nonneg cat i).
      pose proof (penalties_in_nonneg cat issues).
      specialize (Hpos cat). lia.
    + destruct (Hval2 cat) as [_ ->]. destruct (Hval1 cat) as [_ ->]. lia.
Qed.

Lemma get_build_breakdown cat scores pens :
  In cat (map fst scores) ->
  Dict.get cat (build_breakdown scores pens)
    = Some (JDict [ ("score", JInt (tget cat scores));
                    ("penalties", JInt (tget cat pens));
                    ("max", JInt 20) ]).
Proof.
  induction scores as [|[k v] scores IH]; simpl; intros Hin.
  - contradiction.
  - destruct (String.eqb cat k) eqn:E.
    + apply String.eqb_eq in E. now subst.
    + apply IH. destruct Hin as [<-|Hin]; [|exact Hin].
      now rewrite String.eqb_refl in E.
Qed.

Lemma table_of_categories t :
  map fst t = CATEGORIES ->
  t = map (fun cat => (cat, tget cat t)) CATEGORIES.
Proof.
  unfold CATEGORIES.
  destruct t as [|[k1 v1] [|[k2 v2] [|[k3 v3] [|[k4 v4] [|[k5 v5] [|]]]]]];
    simpl; try discriminate.
  intros [= -> -> -> -> ->]. reflexivity.
Qed.

Lemma sum_values_categories t :
  map fst t = CATEGORIES ->
  sum_values t = sumZ (map (fun cat => tget cat t) CATEGORIES).
Proof.
  intros H. rewrite (table_of_categories t H) at 1.
  unfold sum_values, sumZ, CATEGORIES. simpl. lia.
Qed.

Lemma table_ext t1 t2 :
  map fst t1 = CATEGORIES -> map fst t2 = CATEGORIES ->
  (forall cat, In cat CATEGORIES -> tget cat t1 = tget cat t2) ->
  t1 = t2.
Proof.
  intros H1 H2 Heq.
  rewrite (table_of_categories t1 H1), (table_of_categories t2 H2).
  apply map_ext_in. intros cat Hin. now rewrite (Heq cat Hin).
Qed.

Lemma tget_scores_init cat :
  In cat CATEGORIES -> tget cat category_scores_init = 20.
Proof.
  unfold CATEGORIES. simpl.
  intros [<-|[<-|[<-|[<-|[<-|[]]]]]]; reflexivity.
Qed.

Lemma tget_scores_init_nonneg cat : 0 <= tget cat category_scores_init.
Proof.
  unfold category_scores_init. simpl.
  repeat (match goal with
          | |- context [if ?b then _ else _] => destruct b
          end; [lia|]).
  lia.
Qed.

Lemma tget_penalties_init cat : tget cat category_penalties_init = 0.
Proof.
  unfold category_penalties_init, category_scores_init. simpl.
  repeat (match goal with
          | |- context [if ?b then _ else _] => destruct b
          end; [reflexivity|]).
  reflexivity.
Qed.

(** The normal path on a list of issue records without an infinite
    penalty: no exception, and the three fields are set from what the
    loop leaves. *)
Lemma recalculate_scores_contract a issues :
  truthy (Dict.get_default "is_contract" (JBool true) a) = true ->
  Dict.get "issues" a = Some (JList issues) ->
  forallb well_formed issues = true ->
  existsb infinite_penalty issues = false ->
  exists scores pens,
    recalculate_scores a
      = Ok (Dict.set "overall_risk_score" (JInt (sum_values scores))
             (Dict.set "score_breakdown" (JDict (build_breakdown scores pens))
               (Dict.set "issues" (JList (filter accepted issues)) a))) /\
    map fst scores = CATEGORIES /\
    (forall cat, In cat CATEGORIES ->
       tget cat scores = Z.max 0 (20 - penalties_in cat issues)) /\
    (forall cat, tget cat pens = penalties_in cat issues).
Proof.
  intros Hc Hi Hwf Hfin.
  set (st0 := {| category_scores := category_scores_init;
                 category_penalties_sum := category_penalties_init;
                 filtered_issues := [] |}).
  destruct (loop_invariant issues st0 eq_refl eq_refl tget_scores_init_nonneg)
    as (Hks & Hkp & Hf & Hval).
  exists (category_scores (fold_left apply_issue issues st0)),
         (category_penalties_sum (fold_left apply_issue issues st0)).
  repeat split.
  - unfold recalculate_scores. rewrite Hc. simpl.
    unfold Dict.get_default at 1. rewrite Hi. simpl.
    rewrite (for_each_well_formed issues _ Hwf Hfin). simpl.
    fold st0. now rewrite Hf.
  - exact Hks.
  - intros cat Hin. destruct (Hval cat) as [-> _].
    change (category_scores st0) with category_scores_init.
    now rewrite (tget_scores_init cat Hin).
  - intros cat. destruct (Hval cat) as [_ ->].
    change (category_penalties_sum st0) with category_penalties_init.
    rewrite tget_penalties_init. lia.
Qed.

(** With an infinite penalty among the issue records the function
    raises, and sets nothing. *)
Lemma recalculate_scores_overflow a issues :
  truthy (Dict.get_default "is_contract" (JBool true) a) = true ->
  Dict.get "issues" a = Some (JList issues) ->
  forallb well_formed issues = true ->
  existsb infinite_penalty issues = true ->
  recalculate_scores a = Raise OverflowError.
Proof.
  intros Hc Hi Hwf Hinf. unfold recalculate_scores. rewrite Hc. cbn [negb].
  unfold Dict.get_default at 1. rewrite Hi. cbn [py_iter bind].
  now rewrite (for_each_infinite issues _ Hwf Hinf).
Qed.







Lemma score_bounds p : 0 <= p -> 0 <= Z.max 0 (20 - p) <= 20.
Proof. lia. Qed.

(** ** A second run *)

Lemma filter_accepted_twice issues :
  filter accepted (filter accepted issues) = filter accepted issues.
Proof.
  induction issues as [|i issues IH]; [reflexivity|].
  cbn [filter]. destruct (accepted i) eqn:E; [|exact IH].
  cbn [filter]. now rewrite E, IH.
Qed.

Lemma penalties_in_accepted cat issues :
  penalties_in cat (filter accepted issues) = penalties_in cat issues.
Proof.
  induction issues as [|i issues IH]; [reflexivity|].
  cbn [filter penalties_in]. destruct (accepted i) eqn:E.
  - cbn [penalties_in]. now rewrite IH.
  - rewrite IH. unfold deduction. destruct i; try reflexivity.
    now rewrite E.
Qed.

Lemma well_formed_accepted issues :
  forallb well_formed issues = true ->
  forallb well_formed (filter accepted issues) = true.
Proof.
  intros H. apply forallb_forall. intros i Hi.
  apply filter_In in Hi as [Hi _]. rewrite forallb_forall in H. now apply H.
Qed.

Lemma infinite_accepted issues :
  existsb infinite_penalty issues = false ->
  existsb infinite_penalty (filter accepted issues) = false.
Proof.
  intros H. destruct (existsb infinite_penalty (filter accepted issues)) eqn:E;
    [|reflexivity].
  apply existsb_exists in E as (i & Hi & Hinf).
  apply filter_In in Hi as [Hi _].
  assert (existsb infinite_penalty issues = true)
    by (apply existsb_exists; now exists i).
  congruence.
Qed.

(** A run on issue records that returns has met no infinite penalty. *)
Lemma returned_finite a issues r :
  truthy (Dict.get_default "is_contract" (JBool true) a) = true ->
  Dict.get "issues" a = Some (JList issues) ->
  forallb well_formed issues = true ->
  recalculate_scores a = Ok r ->
  existsb infinite_penalty issues = false.
Proof.
  intros Hc Hi Hwf Hr.
  destruct (existsb infinite_penalty issues) eqn:E; [|reflexivity].
  rewrite (recalculate_scores_overflow a issues Hc Hi Hwf E) in Hr.
  discriminate.
Qed.

End Calculation.

End ScoreFacts.
Section ScoreClaims.

Import AiAnalyzer ScoreFacts DictFacts Samples.
Local Open Scope string_scope.
Local Open Scope Z_scope.

Context {U : UnicodeTables}.




(** C5. When the result flags the document as not a contract,
    [recalculate_scores] answers with overall score 0 and the five
    category scores 0, whatever the issues entry holds: it is not read. *)
Theorem recalculate_scores_not_contract :
  forall (a : dict),
    Dict.get "is_contract" a = Some (JBool false) ->
    exists r,
      recalculate_scores a = Ok r /\
      Dict.get "overall_risk_score" r = Some (JInt 0) /\
      (forall cat, In cat CATEGORIES ->
         breakdown_entry r cat "score" = Some (JInt 0)).
Proof.
  intros a H. eexists. split; [|split].
  - unfold recalculate_scores, Dict.get_default. rewrite H. simpl. reflexivity.
  - rewrite get_set_other by discriminate. apply get_set_same.
  - intros cat Hin. unfold breakdown_entry. rewrite get_set_same.
    unfold CATEGORIES in Hin. simpl in Hin.
    destruct Hin as [<-|[<-|[<-|[<-|[<-|[]]]]]]; reflexivity.
Qed.

(** C10. When [is_contract] is false, [recalculate_scores] changes the
    entries [overall_risk_score] and [score_breakdown] and no other: in
    particular the issues list comes back as it was, invalid issues
    included, where the normal path drops them. *)
Theorem recalculate_scores_not_contract_frame :
  forall (a : dict),
    Dict.get "is_contract" a = Some (JBool false) ->
    (exists r,
       recalculate_scores a = Ok r /\
       (forall k, k <> "overall_risk_score" -> k <> "score_breakdown" ->
          Dict.get k r = Dict.get k a) /\
       Dict.get "issues" r = Dict.get "issues" a)
    /\
    (exists r r',
       @recalculate_scores UCD.tables not_a_contract = Ok r /\
       Dict.get "issues" r = Some (JList unmapped_issues) /\
       @recalculate_scores UCD.tables unmapped = Ok r' /\
       Dict.get "issues" r' = Some (JList [issue "Z9" (JInt 5)])).
Proof.
  intros a H. split.
  - eexists. split; [|split].
    + unfold recalculate_scores, Dict.get_default. rewrite H. simpl. reflexivity.
    + intros k H1 H2. now rewrite !get_set_other by assumption.
    + now rewrite !get_set_other by discriminate.
  - do 2 eexists. split; [vm_compute; reflexivity|].
    split; [reflexivity|]. split; [vm_compute; reflexivity|]. reflexivity.
Qed.


End ScoreClaims.

Section ScoreRuns.

Import AiAnalyzer Samples UCD.
Local Open Scope string_scope.
Local Open Scope Z_scope.




End ScoreRuns.

(* ================================================================== *)
(** * Properties of the string operations *)
(* ================================================================== *)

Module PyFacts.

Local Open Scope N_scope.

Example lit_hebrew : lit "חוזה" = [1495; 1493; 1494; 1492].
Proof. reflexivity. Qed.

Example lit_symbols : lit "₪™ a" = [8362; 8482; 32; 97].
Proof. reflexivity. Qed.

Example split_on_example :
  split_on LF [97; 98; 10; 10; 99] = [[97; 98]; []; [99]].
Proof. reflexivity. Qed.

(** ** Splitting and joining lines *)

Lemma split_on_nonempty sep s : split_on sep s <> [].
Proof.
  destruct s as [|c s]; simpl; [discriminate|].
  destruct (c =? sep); [discriminate|].
  destruct (split_on sep s); discriminate.
Qed.

Lemma split_on_no_sep sep s :
  Forall (fun l => ~ In sep l) (split_on sep s).
Proof.
  induction s as [|c s IH]; simpl.
  - constructor; [intros []|constructor].
  - destruct (c =? sep) eqn:E.
    + constructor; [intros []|exact IH].
    + destruct (split_on sep s) as [|l ls]; [repeat constructor|].
      * intros [H|[]]. subst. now rewrite N.eqb_refl in E.
      * inversion IH; subst. constructor; [|assumption].
        intros [H|H]; [|contradiction].
        subst. now rewrite N.eqb_refl in E.
Qed.

Lemma split_on_line sep l :
  ~ In sep l -> split_on sep l = [l].
Proof.
  induction l as [|c l IH]; simpl; intros H; [reflexivity|].
  destruct (c =? sep) eqn:E.
  - apply N.eqb_eq in E. subst. exfalso. apply H. now left.
  - rewrite IH; [reflexivity|]. intros Hin. apply H. now right.
Qed.

Lemma split_on_app sep l rest :
  ~ In sep l ->
  split_on sep (l ++ sep :: rest) = l :: split_on sep rest.
Proof.
  induction l as [|c l IH]; simpl; intros H.
  - now rewrite N.eqb_refl.
  - destruct (c =? sep) eqn:E.
    + apply N.eqb_eq in E. subst. exfalso. apply H. now left.
    + rewrite IH; [reflexivity|]. intros Hin. apply H. now right.
Qed.

(** Joining lines and splitting again gives the lines back. *)
Lemma split_on_join sep ls :
  ls <> [] -> Forall (fun l => ~ In sep l) ls ->
  split_on sep (join [sep] ls) = ls.
Proof.
  induction ls as [|l ls IH]; intros Hne Hall; [contradiction|].
  inversion Hall as [|? ? Hl Hls]; subst.
  destruct ls as [|l' ls].
  - simpl. now apply split_on_line.
  - change (join [sep] (l :: l' :: ls)) with (l ++ [sep] ++ join [sep] (l' :: ls)).
    simpl app. rewrite split_on_app by assumption.
    f_equal. apply IH; [discriminate|assumption].
Qed.

Lemma split_on_mirror text :
  split_on LF (PrivacyShield.mirror text) = map (@rev char) (split_on LF text).
Proof.
  unfold PrivacyShield.mirror. apply split_on_join.
  - pose proof (split_on_nonempty LF text).
    destruct (split_on LF text); [contradiction|discriminate].
  - pose proof (split_on_no_sep LF text) as H.
    induction H; simpl; constructor; [|assumption].
    now rewrite <- in_rev.
Qed.

(** ** Stripping *)

Lemma lstrip_of_head sp s c r : lstrip_of sp s = c :: r -> sp c = false.
Proof.
  induction s as [|x s IH]; simpl; [discriminate|].
  destruct (sp x) eqn:E; [exact IH|].
  intros [= <- <-]. exact E.
Qed.

Lemma lstrip_of_keep sp c s : sp c = false -> lstrip_of sp (c :: s) = c :: s.
Proof. intros H. simpl. now rewrite H. Qed.

Lemma lstrip_of_snoc sp l c :
  sp c = false -> lstrip_of sp (l ++ [c]) = lstrip_of sp l ++ [c].
Proof.
  intros H. induction l as [|x l IH]; simpl.
  - now rewrite H.
  - destruct (sp x); [exact IH|reflexivity].
Qed.

(** A string that starts with a character [strip] keeps still starts
    with it once stripped. *)
Lemma strip_of_keep sp c s :
  sp c = false -> exists r, strip_of sp (c :: s) = c :: r.
Proof.
  intros H. unfold strip_of. rewrite (lstrip_of_keep sp c s H).
  simpl rev. rewrite (lstrip_of_snoc sp (rev s) c H).
  rewrite rev_app_distr. simpl. eauto.
Qed.

(** A stripped string is empty or starts with a character [strip] keeps. *)
Lemma strip_of_head sp s c r : strip_of sp s = c :: r -> sp c = false.
Proof.
  unfold strip_of. destruct (lstrip_of sp s) as [|c0 y] eqn:E.
  - simpl. discriminate.
  - pose proof (lstrip_of_head sp s c0 y E) as H0.
    simpl rev. rewrite (lstrip_of_snoc sp (rev y) c0 H0).
    rewrite rev_app_distr. simpl. intros [= <- _]. exact H0.
Qed.

End PyFacts.

(* ================================================================== *)
(** * Properties of the matcher and of the clause splitter *)
(* ================================================================== *)

Module ClauseFacts.

Import PyFacts PrivacyShield.
Local Open Scope N_scope.

Section Facts.
Context {U : UnicodeTables}.

(** ** The matcher *)

(** A greedy star over a text made of characters of its set reaches the
    end of the text. *)
Lemma star_run_all p k s : forall prev,
  forallb p s = true ->
  (forall prev', k prev' [] <> None) ->
  star_run p k prev s <> None.
Proof.
  induction s as [|c s IH]; intros prev Hall Hk; simpl.
  - apply Hk.
  - simpl in Hall. apply andb_true_iff in Hall as [Hc Hs]. rewrite Hc.
    specialize (IH (Some c) Hs Hk).
    destruct (star_run p k (Some c) s); [discriminate|contradiction].
Qed.

(** [^[\d\W]+$] matches every non-empty text of digits and non-word
    characters. *)
Lemma no_letters_matches s :
  s <> [] ->
  forallb (either dig (non isword)) s = true ->
  matches no_letters s = true.
Proof.
  intros Hne Hall. destruct s as [|c s]; [contradiction|].
  simpl in Hall. apply andb_true_iff in Hall as [Hc Hs].
  unfold matches, match_at, no_letters, plus. cbn [run]. rewrite Hc.
  pose proof (star_run_all (either dig (non isword))
                (fun prev' s' => run Eos prev' s' (fun _ rest => Some rest))
                s (Some c) Hs) as H.
  destruct (star_run _ _ (Some c) s); [reflexivity|].
  exfalso. apply H; [|reflexivity]. intros prev'. simpl. discriminate.
Qed.

Lemma forallb_false_witness (f : char -> bool) s :
  forallb f s = false -> exists c, In c s /\ f c = false.
Proof.
  induction s as [|x s IH]; simpl; [discriminate|].
  destruct (f x) eqn:E; simpl.
  - intros H. destruct (IH H) as (c & Hin & Hc). eauto.
  - intros _. eauto.
Qed.

(** A non-empty text [^[\d\W]+$] does not match has a word character
    that is not a decimal digit. *)
Lemma no_letters_fails s :
  s <> [] -> matches no_letters s = false ->
  exists c, In c s /\ isword c = true /\ isdecimal c = false.
Proof.
  intros Hne Hm.
  destruct (forallb (either dig (non isword)) s) eqn:E.
  - rewrite (no_letters_matches s Hne E) in Hm. discriminate.
  - destruct (forallb_false_witness _ s E) as (c & Hin & Hc).
    exists c. split; [exact Hin|].
    unfold either, non, dig in Hc. apply orb_false_iff in Hc as [Hd Hw].
    split; [|exact Hd]. now apply negb_false_iff.
Qed.

(** [re.sub(r'\s+', ' ', s)] keeps a first character that is not
    whitespace. *)
Lemma sub_spaces_keep c s :
  isspace c = false ->
  exists r, sub (plus spc) [SP] (c :: s) = c :: r.
Proof.
  intros H. unfold sub. cbn [sub_from]. unfold match_at, plus. cbn [run].
  unfold spc. rewrite H. eauto.
Qed.

(** ** The three passes of [split_to_clauses] *)

Lemma fold_left_fst_inv {A B S : Type}
    (step : list A * S -> B -> list A * S) (P : A -> Prop) :
  (forall st b x, In x (fst (step st b)) -> In x (fst st) \/ P x) ->
  forall l st x, In x (fst (fold_left step l st)) -> In x (fst st) \/ P x.
Proof.
  intros Hstep. induction l as [|b l IH]; intros st x Hin; cbn [fold_left] in Hin.
  - now left.
  - apply IH in Hin. destruct Hin as [Hin|Hp]; [|now right].
    now apply Hstep in Hin.
Qed.

Lemma group_line_step st l c :
  In c (fst (group_line st l)) -> In c (fst st) \/ fragment c.
Proof.
  destruct st as [cl cur]. unfold group_line. cbv zeta.
  destruct (negb (nonempty (strip l))); [now left|].
  match goal with |- context [if ?b then _ else _] => destruct b end;
    [|now left].
  cbn [fst].
  destruct (nonempty cur && long (strip cur)) eqn:E; [|now left].
  intros Hin. apply in_app_or in Hin. destruct Hin as [Hin|[<-|[]]]; [now left|].
  right. apply andb_true_iff in E as [_ E]. split; [exact E|eauto].
Qed.

Lemma group_line_fragments lines : forall st c,
  In c (fst (fold_left group_line lines st)) ->
  In c (fst st) \/ fragment c.
Proof.
  apply fold_left_fst_inv. intros st b x. apply group_line_step.
Qed.

Lemma group_lines_fragments text c :
  In c (group_lines text) -> fragment c.
Proof.
  unfold group_lines.
  destruct (fold_left group_line (split_on LF text) ([], [])) as [cl cur] eqn:E.
  intros Hin.
  assert (Hcl : forall x, In x cl -> fragment x).
  { intros x Hx.
    destruct (group_line_fragments (split_on LF text) ([], []) x) as [[]|Hf];
      [rewrite E; exact Hx | exact Hf]. }
  destruct (nonempty cur && long (strip cur)) eqn:Hc; [|now apply Hcl].
  apply in_app_or in Hin. destruct Hin as [Hin|[<-|[]]]; [now apply Hcl|].
  apply andb_true_iff in Hc as [_ Hc]. split; [exact Hc|eauto].
Qed.

Lemma cut_at_fragments clause pts : forall st f,
  In f (fst (fold_left (cut_at clause) pts st)) ->
  In f (fst st) \/ fragment f.
Proof.
  apply fold_left_fst_inv. intros [fc prev] p x. unfold cut_at. cbv zeta.
  cbn [fst].
  destruct (long (strip (slice clause prev p))) eqn:E; [|now left].
  intros Hin. apply in_app_or in Hin. destruct Hin as [Hin|[<-|[]]]; [now left|].
  right. split; [exact E|eauto].
Qed.

Lemma resplit_step acc c f :
  fragment c -> In f (resplit acc c) -> In f acc \/ fragment f.
Proof.
  intros Hc. unfold resplit. cbv zeta.
  destruct (finditer_starts split_pattern c) as [|p pts] eqn:Ep.
  - destruct (long c) eqn:E; [|now left].
    intros Hin. apply in_app_or in Hin.
    destruct Hin as [Hin|[<-|[]]]; [now left|now right].
  - destruct (fold_left (cut_at c) (p :: pts) (acc, 0%nat)) as [fc prev] eqn:Ef.
    assert (Hfc : forall x, In x fc -> In x acc \/ fragment x).
    { intros x Hx.
      apply (cut_at_fragments c (p :: pts) (acc, 0%nat) x).
      rewrite Ef. exact Hx. }
    destruct (long (strip (slice_from c prev))) eqn:E; [|now apply Hfc].
    intros Hin. apply in_app_or in Hin.
    destruct Hin as [Hin|[<-|[]]]; [now apply Hfc|].
    right. split; [exact E|eauto].
Qed.

Lemma resplit_fragments cs : forall acc f,
  (forall c, In c cs -> fragment c) ->
  In f (fold_left resplit cs acc) ->
  In f acc \/ fragment f.
Proof.
  induction cs as [|c cs IH]; intros acc f Hcs Hin; cbn [fold_left] in Hin.
  - now left.
  - apply IH in Hin; [|intros x Hx; apply Hcs; now right].
    destruct Hin as [Hin|Hf]; [|now right].
    apply (resplit_step acc c f); [apply Hcs; now left | exact Hin].
Qed.

Lemma cleanup_step acc f x :
  In x (cleanup acc f) ->
  In x acc \/
  (x = strip (sub (plus spc) [SP] f) /\ matches no_letters x = false).
Proof.
  unfold cleanup. cbv zeta.
  destruct (matches no_letters (strip (sub (plus spc) [SP] f))) eqn:E;
    cbn [negb]; [now left|].
  intros Hin. apply in_app_or in Hin. destruct Hin as [Hin|[<-|[]]]; [now left|].
  right. split; [reflexivity | exact E].
Qed.

Lemma cleanup_clauses fs : forall acc x,
  In x (fold_left cleanup fs acc) ->
  In x acc \/
  exists f, In f fs /\ x = strip (sub (plus spc) [SP] f)
            /\ matches no_letters x = false.
Proof.
  induction fs as [|f fs IH]; intros acc x Hin; cbn [fold_left] in Hin.
  - now left.
  - apply IH in Hin. destruct Hin as [Hin|(f' & Hf' & Hx)].
    + apply cleanup_step in Hin. destruct Hin as [Hin|[Hx Hm]]; [now left|].
      right. exists f. split; [now left | split; assumption].
    + right. exists f'. split; [now right | exact Hx].
Qed.

(** A fragment stays non-empty when its whitespace is collapsed. *)
Lemma squeezed_fragment_nonempty f :
  fragment f -> strip (sub (plus spc) [SP] f) <> [].
Proof.
  intros [Hlong (y & Hy)].
  destruct f as [|c r]; [discriminate|].
  assert (Hc : isspace c = false).
  { symmetry in Hy. exact (strip_of_head isspace y c r Hy). }
  destruct (sub_spaces_keep c r Hc) as (r' & ->).
  destruct (strip_of_keep isspace c r' Hc) as (r'' & E).
  unfold strip. rewrite E. discriminate.
Qed.

(** What [split_to_clauses] returns *)
Lemma split_to_clauses_spec text x :
  In x (split_to_clauses text) ->
  exists f,
    (15 < List.length (strip f))%nat /\
    x = strip (sub (plus spc) [SP] (strip f)) /\
    exists c, In c x /\ isword c = true /\ isdecimal c = false.
Proof.
  unfold split_to_clauses. intros Hin.
  apply cleanup_clauses in Hin. destruct Hin as [[]|(f & Hf & Hx & Hm)].
  apply resplit_fragments in Hf; [|intros c Hc; now apply group_lines_fragments in Hc].
  destruct Hf as [[]|Hfrag].
  pose proof (squeezed_fragment_nonempty f Hfrag) as Hne.
  destruct Hfrag as [Hlong (y & Hy)].
  exists y. rewrite <- Hy. repeat split.
  - unfold long in Hlong. now apply Nat.ltb_lt in Hlong.
  - exact Hx.
  - apply no_letters_fails; [now rewrite Hx | exact Hm].
Qed.

End Facts.

End ClauseFacts.

(* ================================================================== *)
(** * Properties of the sanitizer *)
(* ================================================================== *)

Section SanitizerClaims.

Import PyFacts ClauseFacts PrivacyShield Samples.
Local Open Scope string_scope.

Context {U : UnicodeTables}.

(** C6, as the code has it.  Direction correction counts how many of
    the fixed normal-direction keywords occur in the text (each keyword
    once, however often it occurs) and how many of their
    character-reversed counterparts do.  When the reversed count is
    strictly greater it returns the text with the characters of every
    line in reverse order, the lines being the same in number and
    order; otherwise, ties included, it returns the text unchanged. *)
Theorem detect_and_fix_direction_spec :
  forall (text : str),
    KEYWORDS_REVERSED = map (@rev char) KEYWORDS_NORMAL /\
    (forall keywords,
       keyword_score keywords text
       = List.length (filter (fun word => contains word text) keywords)) /\
    ((keyword_score KEYWORDS_NORMAL text < keyword_score KEYWORDS_REVERSED text)%nat ->
       detect_and_fix_direction text = mirror text /\
       split_on LF (detect_and_fix_direction text)
         = map (@rev char) (split_on LF text)) /\
    ((keyword_score KEYWORDS_REVERSED text <= keyword_score KEYWORDS_NORMAL text)%nat ->
       detect_and_fix_direction text = text).
Proof.
  intros text. split; [reflexivity|]. split; [|split].
  - intros keywords. unfold keyword_score.
    induction (filter (fun word => contains word text) keywords) as [|w ws IH];
      simpl; [reflexivity|now rewrite IH].
  - intros H. unfold detect_and_fix_direction.
    apply Nat.ltb_lt in H. rewrite H.
    split; [reflexivity|]. apply split_on_mirror.
  - intros H. unfold detect_and_fix_direction.
    apply Nat.ltb_ge in H. now rewrite H.
Qed.


(** C8, as the code has it.  Every clause of [sanitize(T).clauses] is
    the whitespace-collapsed and trimmed form of a fragment whose
    trimmed length is strictly greater than 15, and has at least one
    word character (a letter, another alphanumeric character or an
    underscore) that is not a decimal digit. *)
Theorem sanitize_clauses_spec :
  forall (T : str) (clause : str),
    In clause (clauses (sanitize T)) ->
    exists piece,
      (15 < List.length (strip piece))%nat /\
      clause = strip (sub (plus spc) [SP] (strip piece)) /\
      exists c, In c clause /\ isword c = true /\ isdecimal c = false.
Proof.
  intros T clause. unfold sanitize, lambda_handler.
  cbn [extractedText or_default py_len bind truthy].
  destruct T as [|c T]; cbn [negb]; [intros []|].
  destruct (sanitize_pii (detect_and_fix_direction (c :: T))) as [text pii].
  unfold clauses. cbn [Dict.get String.eqb Ascii.eqb Bool.eqb].
  assert (Hs : forall l, strs (map JStr l) = l).
  { induction l as [|x l IH]; simpl; [reflexivity|now rewrite IH]. }
  rewrite Hs. apply split_to_clauses_spec.
Qed.

End SanitizerClaims.

Section SanitizerRuns.

Import PrivacyShield Samples UCD.
Local Open Scope string_scope.

(** C6 as stated fails: with three occurrences of one normal keyword and
    one occurrence each of two reversed keywords, the occurrences do not
    call for a reversal and the text is reversed all the same. *)
Lemma direction_not_by_occurrences :
  ~ (forall text : str,
       ((keyword_occurrences KEYWORDS_NORMAL text
         < keyword_occurrences KEYWORDS_REVERSED text)%nat ->
        detect_and_fix_direction text = mirror text) /\
       ((keyword_occurrences KEYWORDS_REVERSED text
         <= keyword_occurrences KEYWORDS_NORMAL text)%nat ->
        detect_and_fix_direction text = text)).
Proof.
  intros H. destruct (H mixed_direction) as [_ H2].
  assert (Hle : (keyword_occurrences KEYWORDS_REVERSED mixed_direction
                 <= keyword_occurrences KEYWORDS_NORMAL mixed_direction)%nat)
    by (vm_compute; lia).
  specialize (H2 Hle). vm_compute in H2. discriminate H2.
Qed.


(** C8 as stated fails: collapsing the whitespace after the length
    checks leaves a clause of twelve characters. *)
Lemma sanitize_short_clause :
  ~ (forall (T : str) (clause : str),
       In clause (clauses (sanitize T)) ->
       (15 < List.length (strip clause))%nat).
Proof.
  intros H.
  assert (Hin : In (lit "abcdefgh ijk") (clauses (sanitize spread_out)))
    by (vm_compute; now left).
  specialize (H _ _ Hin). vm_compute in H. lia.
Qed.

(** And a clause of underscores and spaces only is kept. *)
Lemma sanitize_underscore_clause :
  In underscores (clauses (sanitize underscores)) /\
  Forall (fun c => c = 95%N \/ c = 32%N) underscores.
Proof.
  split; [vm_compute; now left|].
  vm_compute.
  repeat (apply Forall_cons;
          [first [left; reflexivity | right; reflexivity]|]).
  apply Forall_nil.
Qed.

(** C1 on [spaced_card]: no pattern matches the input, the spaces are
    collapsed after the masking, and the output is a card number the
    credit-card pattern matches. *)
Theorem sanitize_leaks_spaced_card :
  sanitize_pii spaced_card = (spaced_card, []) /\
  sanitizedText (sanitize spaced_card) = Some (lit "1234 5678 9012 3456") /\
  search credit_card (lit "1234 5678 9012 3456") = true.
Proof. repeat split; vm_compute; reflexivity. Qed.

(** C3 on [spaced_card]: the output of the first pass is masked by the
    second. *)
Theorem sanitize_twice_spaced_card :
  sanitizedText (sanitize spaced_card) = Some (lit "1234 5678 9012 3456") /\
  sanitizedText (sanitize (lit "1234 5678 9012 3456"))
    = Some (lit "[כ.אשראי הוסתר]") /\
  lit "[כ.אשראי הוסתר]" <> lit "1234 5678 9012 3456".
Proof.
  repeat split; try (vm_compute; reflexivity).
  vm_compute. discriminate.
Qed.

End SanitizerRuns.

(* ================================================================== *)
(** * The theorems at sample inputs *)
(* ================================================================== *)

Section Witnesses.

Import AiAnalyzer PrivacyShield Samples UCD.
Local Open Scope string_scope.
Local Open Scope Z_scope.



Lemma recalculate_scores_not_contract_witness :
  Dict.get "is_contract" not_a_contract = Some (JBool false) /\
  exists r,
    recalculate_scores not_a_contract = Ok r /\
    Dict.get "overall_risk_score" r = Some (JInt 0).
Proof.
  split; [reflexivity|].
  destruct (@recalculate_scores_not_contract tables not_a_contract eq_refl)
    as (r & Hr & Ho & _).
  exists r. split; [exact Hr | exact Ho].
Defined.

Lemma recalculate_scores_not_contract_frame_witness :
  Dict.get "is_contract" not_a_contract = Some (JBool false) /\
  exists r,
    recalculate_scores not_a_contract = Ok r /\
    Dict.get "issues" r = Some (JList unmapped_issues).
Proof.
  split; [reflexivity|].
  destruct (@recalculate_scores_not_contract_frame tables not_a_contract eq_refl)
    as [(r & Hr & _ & Hi) _].
  exists r. split; [exact Hr | exact Hi].
Defined.


Lemma detect_and_fix_direction_spec_witness :
  (keyword_score KEYWORDS_NORMAL mirrored_line
   < keyword_score KEYWORDS_REVERSED mirrored_line)%nat /\
  detect_and_fix_direction mirrored_line = lit "שכירות חוזה".
Proof.
  assert (H : (keyword_score KEYWORDS_NORMAL mirrored_line
               < keyword_score KEYWORDS_REVERSED mirrored_line)%nat)
    by (vm_compute; lia).
  split; [exact H|].
  destruct (detect_and_fix_direction_spec mirrored_line) as (_ & _ & Hrev & _).
  destruct (Hrev H) as [E _]. rewrite E. reflexivity.
Defined.


Lemma sanitize_clauses_spec_witness :
  In (lit "1. חוזה שכירות המשכיר מתחייב") (clauses (sanitize numbered_clause)) /\
  exists c,
    In c (lit "1. חוזה שכירות המשכיר מתחייב") /\
    isword c = true /\ isdecimal c = false.
Proof.
  assert (H : In (lit "1. חוזה שכירות המשכיר מתחייב")
                 (clauses (sanitize numbered_clause)))
    by (vm_compute; left; reflexivity).
  split; [exact H|].
  destruct (@sanitize_clauses_spec tables numbered_clause _ H)
    as (f & _ & _ & Hc).
  exact Hc.
Defined.

End Witnesses.

(* ================================================================== *)
(** * Direction repair: round trip and stability *)
(* ================================================================== *)

Module DirectionFacts.

Import PyFacts PrivacyShield.
Local Open Scope N_scope.

Lemma join_cons_char sep c l ls :
  join [sep] ((c :: l) :: ls) = c :: join [sep] (l :: ls).
Proof. destruct ls; reflexivity. Qed.

Lemma split_on_cons sep c s :
  split_on sep (c :: s)
  = if c =? sep then [] :: split_on sep s
    else match split_on sep s with
         | [] => [[c]]
         | l :: ls => (c :: l) :: ls
         end.
Proof. reflexivity. Qed.

(** Splitting a text into lines and joining them gives the text back. *)
Lemma join_split_on sep s : join [sep] (split_on sep s) = s.
Proof.
  induction s as [|c s IH]; [reflexivity|].
  rewrite split_on_cons. destruct (c =? sep) eqn:E.
  - apply N.eqb_eq in E. subst c.
    pose proof (split_on_nonempty sep s) as Hne.
    destruct (split_on sep s) as [|l ls]; [contradiction|].
    change (join [sep] ([] :: l :: ls)) with (sep :: join [sep] (l :: ls)).
    f_equal. exact IH.
  - pose proof (split_on_nonempty sep s) as Hne.
    destruct (split_on sep s) as [|l ls]; [contradiction|].
    rewrite join_cons_char. f_equal. exact IH.
Qed.

Lemma map_rev_rev (ls : list str) : map (@rev char) (map (@rev char) ls) = ls.
Proof.
  induction ls as [|l ls IH]; simpl; [reflexivity|].
  now rewrite rev_involutive, IH.
Qed.

Lemma mirror_involutive text : mirror (mirror text) = text.
Proof.
  unfold mirror at 1. rewrite split_on_mirror, map_rev_rev.
  apply join_split_on.
Qed.

Lemma join_length sep (ls : list str) :
  List.length (join [sep] (map (@rev char) ls)) = List.length (join [sep] ls).
Proof.
  induction ls as [|l ls IH]; [reflexivity|].
  destruct ls as [|l' ls].
  - simpl. apply length_rev.
  - change (map (@rev char) (l :: l' :: ls))
      with (rev l :: map (@rev char) (l' :: ls)).
    change (join [sep] (l :: l' :: ls)) with (l ++ [sep] ++ join [sep] (l' :: ls)).
    change (join [sep] (rev l :: map (@rev char) (l' :: ls)))
      with (join [sep] (rev l :: rev l' :: map (@rev char) ls)).
    change (join [sep] (rev l :: rev l' :: map (@rev char) ls))
      with (rev l ++ [sep] ++ join [sep] (map (@rev char) (l' :: ls))).
    rewrite !length_app, IH, length_rev. reflexivity.
Qed.

Lemma mirror_length text : List.length (mirror text) = List.length text.
Proof.
  unfold mirror. rewrite join_length. now rewrite join_split_on.
Qed.

(** ** Occurrences *)

Lemma startswith_spec w : forall s,
  startswith w s = true <-> exists b, s = w ++ b.
Proof.
  induction w as [|x w IH]; intros s; simpl.
  - split; [intros _; now exists s | reflexivity].
  - destruct s as [|y s].
    + split; [discriminate | intros (b & H); discriminate].
    + rewrite andb_true_iff, N.eqb_eq, IH. split.
      * intros [-> (b & ->)]. now exists b.
      * intros (b & [= -> ->]). split; [reflexivity | now exists b].
Qed.

Lemma contains_spec w : forall s,
  contains w s = true <-> exists a b, s = a ++ w ++ b.
Proof.
  induction s as [|c s IH].
  - cbn [contains]. rewrite orb_false_r, startswith_spec. split.
    + intros (b & ->). now exists [], b.
    + intros (a & b & H). destruct a; [now exists b|discriminate].
  - cbn [contains]. rewrite orb_true_iff, startswith_spec, IH. split.
    + intros [(b & ->) | (a & b & ->)]; [now exists [], b | now exists (c :: a), b].
    + intros (a & b & H). destruct a as [|x a].
      * left. now exists b.
      * right. injection H as -> ->. now exists a, b.
Qed.

Lemma contains_rev w s : contains w (rev s) = contains (rev w) s.
Proof.
  apply eq_true_iff_eq. rewrite !contains_spec. split.
  - intros (a & b & H). exists (rev b), (rev a).
    rewrite <- (rev_involutive s), H. now rewrite !rev_app_distr, app_assoc.
  - intros (a & b & ->). exists (rev b), (rev a).
    now rewrite !rev_app_distr, rev_involutive, app_assoc.
Qed.

Lemma startswith_before_sep sep w : forall l r,
  ~ In sep w -> startswith w (l ++ sep :: r) = startswith w l.
Proof.
  induction w as [|x w IH]; intros l r Hw; [reflexivity|].
  destruct l as [|c l]; simpl.
  - destruct (x =? sep) eqn:E; [|reflexivity].
    apply N.eqb_eq in E. exfalso. apply Hw. now left.
  - rewrite IH; [reflexivity|]. intros H. apply Hw. now right.
Qed.

(** An occurrence of a word without the separator lies on one side of
    a separator. *)
Lemma contains_across_sep sep w l r :
  ~ In sep w ->
  contains w (l ++ sep :: r) = contains w l || contains w r.
Proof.
  intros Hw. induction l as [|c l IH].
  - cbn [app contains]. destruct w as [|x w]; [reflexivity|].
    cbn [startswith]. destruct (x =? sep) eqn:E; [|reflexivity].
    apply N.eqb_eq in E. exfalso. apply Hw. now left.
  - change ((c :: l) ++ sep :: r) with (c :: (l ++ sep :: r)).
    cbn [contains]. rewrite IH.
    change (c :: l ++ sep :: r) with ((c :: l) ++ sep :: r).
    rewrite (startswith_before_sep sep w (c :: l) r Hw).
    now rewrite orb_assoc.
Qed.

Lemma contains_join sep w ls :
  ls <> [] -> ~ In sep w ->
  contains w (join [sep] ls) = existsb (contains w) ls.
Proof.
  intros Hne Hw. induction ls as [|l ls IH]; [contradiction|].
  destruct ls as [|l' ls].
  - simpl. now rewrite orb_false_r.
  - change (join [sep] (l :: l' :: ls)) with (l ++ sep :: join [sep] (l' :: ls)).
    rewrite (contains_across_sep sep w _ _ Hw), IH by discriminate.
    reflexivity.
Qed.

(** A word occurs in the mirrored text when its reverse occurs in the
    text. *)
Lemma contains_mirror w text :
  ~ In LF w -> contains w (mirror text) = contains (rev w) text.
Proof.
  intros Hw. unfold mirror.
  assert (Hne : split_on LF text <> []) by apply split_on_nonempty.
  rewrite contains_join;
    [|destruct (split_on LF text); [contradiction|discriminate] | exact Hw].
  rewrite <- (join_split_on LF text) at 2.
  rewrite contains_join; [|exact Hne | now rewrite <- in_rev].
  induction (split_on LF text) as [|l ls IH]; [reflexivity|].
  simpl. rewrite contains_rev. f_equal.
  destruct ls; [reflexivity|]. apply IH. discriminate.
Qed.

Lemma keyword_score_cons w ws text :
  keyword_score (w :: ws) text
  = ((if contains w text then 1 else 0) + keyword_score ws text)%nat.
Proof.
  unfold keyword_score. cbn [filter].
  destruct (contains w text); reflexivity.
Qed.

Lemma keyword_score_mirror keywords text :
  Forall (fun w => ~ In LF w) keywords ->
  keyword_score keywords (mirror text)
  = keyword_score (map (@rev char) keywords) text.
Proof.
  induction 1 as [|w ws Hw _ IH]; [reflexivity|].
  cbn [map]. rewrite !keyword_score_cons, IH.
  now rewrite (contains_mirror w text Hw).
Qed.

Lemma keywords_one_line :
  Forall (fun w => ~ In LF w) KEYWORDS_NORMAL /\
  Forall (fun w => ~ In LF w) KEYWORDS_REVERSED.
Proof.
  assert (H : forall ks,
    forallb (fun w => negb (existsb (N.eqb LF) w)) ks = true ->
    Forall (fun w => ~ In LF w) ks).
  { intros ks Hk. apply Forall_forall. intros w Hin.
    rewrite forallb_forall in Hk. specialize (Hk w Hin).
    apply negb_true_iff in Hk. intros HIn.
    assert (existsb (N.eqb LF) w = true)
      by (apply existsb_exists; exists LF; split; [exact HIn | apply N.eqb_refl]).
    congruence. }
  split; apply H; reflexivity.
Qed.

End DirectionFacts.

(* ================================================================== *)
(** * Substitution: what [sub] keeps, drops and brings in *)
(* ================================================================== *)

Module SubFacts.

Import PyFacts.
Local Open Scope N_scope.

(** ** Neighbours *)

Lemma adjacent_free_tail p c l :
  adjacent_free p (c :: l) = true -> adjacent_free p l = true.
Proof.
  destruct l as [|d l]; [reflexivity|]. cbn [adjacent_free].
  intros H. now apply andb_true_iff in H as [_ H].
Qed.

Lemma adjacent_free_cons p c l :
  adjacent_free p (c :: l) = true <->
  adjacent_free p l = true /\
  (p c = true -> forall d l', l = d :: l' -> p d = false).
Proof.
  destruct l as [|d l]; cbn [adjacent_free].
  - split; [intros _; split; [reflexivity | discriminate] | reflexivity].
  - rewrite andb_true_iff, negb_true_iff, andb_false_iff. split.
    + intros [[H|H] Hl]; (split; [exact Hl|]).
      * intros Hc. congruence.
      * intros _ d' l' [= <- <-]. exact H.
    + intros [Hl H]. split; [|exact Hl].
      destruct (p c); [right; now apply (H eq_refl d l) | now left].
Qed.

Lemma adjacent_free_app_free p a l :
  forallb (non p) a = true -> a <> [] ->
  adjacent_free p l = true -> adjacent_free p (a ++ l) = true.
Proof.
  induction a as [|x a IH]; [contradiction|]. intros Ha _ Hl.
  cbn [forallb] in Ha. apply andb_true_iff in Ha as [Hx Ha].
  unfold non in Hx. apply negb_true_iff in Hx.
  change ((x :: a) ++ l) with (x :: (a ++ l)).
  apply adjacent_free_cons. split.
  - destruct a as [|y a]; [exact Hl|]. apply IH; [exact Ha | discriminate | exact Hl].
  - intros Hc. congruence.
Qed.

Lemma adjacent_free_suffix p a l :
  adjacent_free p (a ++ l) = true -> adjacent_free p l = true.
Proof.
  induction a as [|x a IH]; [trivial|].
  intros H. apply IH. exact (adjacent_free_tail p x _ H).
Qed.

Lemma adjacent_free_rev_cons p l : forall c,
  adjacent_free p (l ++ [c]) = true ->
  adjacent_free p l = true.
Proof.
  induction l as [|x l IH]; intros c H; [reflexivity|].
  change ((x :: l) ++ [c]) with (x :: (l ++ [c])) in H.
  apply adjacent_free_cons in H as [Hl Hx].
  apply adjacent_free_cons. split; [exact (IH c Hl)|].
  intros Hc d l' ->. apply (Hx Hc d (l' ++ [c])). reflexivity.
Qed.

Lemma adjacent_free_prefix p l : forall b,
  adjacent_free p (l ++ b) = true -> adjacent_free p l = true.
Proof.
  intros b. revert l. induction b as [|c b IH] using rev_ind; intros l H.
  - now rewrite app_nil_r in H.
  - rewrite app_assoc in H. apply adjacent_free_rev_cons in H. now apply IH.
Qed.

(** ** Stripping *)

Lemma lstrip_of_suffix sp s : exists a, s = a ++ lstrip_of sp s.
Proof.
  induction s as [|c s (a & IH)]; [now exists []|].
  cbn [lstrip_of]. destruct (sp c).
  - exists (c :: a). simpl. now f_equal.
  - now exists [].
Qed.

(** A stripped string is a piece of the string. *)
Lemma strip_of_infix sp s : exists a b, s = a ++ strip_of sp s ++ b.
Proof.
  unfold strip_of.
  destruct (lstrip_of_suffix sp s) as (a & Ha).
  destruct (lstrip_of_suffix sp (rev (lstrip_of sp s))) as (b & Hb).
  exists a, (rev b). rewrite <- rev_app_distr, <- Hb, rev_involutive.
  exact Ha.
Qed.

Lemma strip_of_last sp s c r :
  rev (strip_of sp s) = c :: r -> sp c = false.
Proof.
  unfold strip_of. rewrite rev_involutive. apply lstrip_of_head.
Qed.

Lemma strip_of_length sp s : (List.length (strip_of sp s) <= List.length s)%nat.
Proof.
  destruct (strip_of_infix sp s) as (a & b & H).
  rewrite H at 2. rewrite !length_app. lia.
Qed.

Section Matcher.
Context {U : UnicodeTables}.

(** ** The characters of the result *)

Lemma sub_from_chars r repl c : forall s prev k,
  In c (sub_from r repl prev s k) -> In c s \/ In c repl.
Proof.
  induction s as [|x s IH]; intros prev k; cbn [sub_from].
  - destruct k; [|intros []].
    destruct (match_at r prev []); [now right | intros []].
  - destruct k as [|k].
    + destruct (match_at r prev (x :: s)) as [rest|].
      * destruct (List.length (x :: s) - List.length rest)%nat; intros H;
          apply in_app_or in H; destruct H as [H|H]; try (now right).
        -- destruct H as [<-|H]; [left; now left|].
           destruct (IH _ _ H); [left; now right | now right].
        -- destruct (IH _ _ H); [left; now right | now right].
      * intros [<-|H]; [left; now left|].
        destruct (IH _ _ H); [left; now right | now right].
    + intros H. destruct (IH _ _ H); [left; now right | now right].
Qed.

Lemma sub_chars r repl s c :
  In c (sub r repl s) -> In c s \/ In c repl.
Proof. apply sub_from_chars. Qed.

(** ** One-character patterns *)

Lemma sub_from_class p repl : forall s prev,
  sub_from (Cls p) repl prev s 0
  = flat_map (fun c => if p c then repl else [c]) s.
Proof.
  induction s as [|c s IH]; intros prev; [reflexivity|].
  cbn [sub_from flat_map]. unfold match_at. cbn [run].
  destruct (p c).
  - replace (List.length (c :: s) - List.length s)%nat with 1%nat
      by (cbn [List.length]; lia).
    now rewrite IH.
  - now rewrite IH.
Qed.

(** Substituting for a one-character set leaves no character of the
    set but those of the replacement. *)
Lemma sub_class_clears p repl s c :
  In c (sub (Cls p) repl s) -> p c = false \/ In c repl.
Proof.
  unfold sub. rewrite sub_from_class. intros H.
  apply in_flat_map in H as (x & _ & Hx).
  destruct (p x) eqn:E; [now right|].
  destruct Hx as [<-|[]]. now left.
Qed.

(** ** Runs *)

Lemma star_run_accept p : forall s prev,
  star_run p (fun _ rest => Some rest) prev s = Some (lstrip_of p s).
Proof.
  induction s as [|c s IH]; intros prev; [reflexivity|].
  cbn [star_run lstrip_of]. destruct (p c); [|reflexivity].
  now rewrite IH.
Qed.

Lemma match_at_plus p prev c s :
  match_at (plus p) prev (c :: s)
  = if p c then Some (lstrip_of p s) else None.
Proof.
  unfold match_at, plus. cbn [run]. destruct (p c); [|reflexivity].
  apply star_run_accept.
Qed.

Lemma lstrip_of_length p s : (List.length (lstrip_of p s) <= List.length s)%nat.
Proof.
  destruct (lstrip_of_suffix p s) as (a & H).
  rewrite H at 2. rewrite length_app. lia.
Qed.

(** Substituting for [p+] replaces every run of [p]. *)
Lemma sub_from_plus p repl : forall s,
  (forall prev,
     sub_from (plus p) repl prev s
              (List.length s - List.length (lstrip_of p s))
     = squeeze p repl true s) /\
  (forall prev, sub_from (plus p) repl prev s 0 = squeeze p repl false s).
Proof.
  induction s as [|c s [IHa IHb]].
  - split; intros prev; reflexivity.
  - split; intros prev.
    + cbn [lstrip_of squeeze]. destruct (p c) eqn:E.
      * pose proof (lstrip_of_length p s).
        replace (List.length (c :: s) - List.length (lstrip_of p s))%nat
          with (S (List.length s - List.length (lstrip_of p s)))
          by (cbn [List.length]; lia).
        cbn [sub_from]. now rewrite IHa.
      * rewrite Nat.sub_diag. cbn [sub_from]. rewrite match_at_plus, E.
        now rewrite IHb.
    + cbn [sub_from squeeze]. rewrite match_at_plus. destruct (p c).
      * pose proof (lstrip_of_length p s).
        replace (List.length (c :: s) - List.length (lstrip_of p s))%nat
          with (S (List.length s - List.length (lstrip_of p s)))
          by (cbn [List.length]; lia).
        now rewrite IHa.
      * now rewrite IHb.
Qed.

Lemma sub_plus p repl s : sub (plus p) repl s = squeeze p repl false s.
Proof. apply sub_from_plus. Qed.

Lemma squeeze_chars p repl c : forall s b,
  In c (squeeze p repl b s) -> (In c s /\ p c = false) \/ In c repl.
Proof.
  induction s as [|x s IH]; intros b; cbn [squeeze]; [intros []|].
  destruct (p x) eqn:E.
  - intros H. apply in_app_or in H. destruct H as [H|H].
    + destruct b; [destruct H | now right].
    + destruct (IH _ H) as [[Hin Hp]|Hr]; [left; split; [now right|exact Hp] | now right].
  - intros [<-|H]; [left; split; [now left|exact E]|].
    destruct (IH _ H) as [[Hin Hp]|Hr]; [left; split; [now right|exact Hp] | now right].
Qed.

(** Where every run is replaced by one character, no two characters of
    the set are neighbours. *)
Lemma squeeze_adjacent_free p x : forall s,
  adjacent_free p (squeeze p [x] true s) = true /\
  adjacent_free p (squeeze p [x] false s) = true /\
  (forall d l, squeeze p [x] true s = d :: l -> p d = false).
Proof.
  induction s as [|c s (IHt & IHf & IHh)]; [repeat split; discriminate|].
  cbn [squeeze]. destruct (p c) eqn:E; cbn [app].
  - split; [exact IHt|]. split; [|exact IHh].
    apply adjacent_free_cons. split; [exact IHt|]. intros _. exact IHh.
  - assert (H : adjacent_free p (c :: squeeze p [x] false s) = true).
    { apply adjacent_free_cons. split; [exact IHf|]. intros Hc. congruence. }
    split; [exact H|]. split; [exact H|].
    intros d l [= <- _]. exact E.
Qed.

(** ** Replacements outside the set *)

(** A replacement that is not empty and has no character of [p] puts
    no two characters of [p] side by side. *)
Lemma sub_from_adjacent_free p r repl :
  repl <> [] -> forallb (non p) repl = true ->
  forall s prev k,
    adjacent_free p s = true ->
    adjacent_free p (sub_from r repl prev s k) = true /\
    (k = 0%nat ->
     forall d l, sub_from r repl prev s 0 = d :: l -> p d = true ->
                 exists l', s = d :: l').
Proof.
  intros Hne Hfree.
  assert (Hhead : forall l d l', (repl ++ l) = d :: l' -> p d = false).
  { intros l d l' H. destruct repl as [|y repl']; [contradiction|].
    injection H as <- _. cbn [forallb] in Hfree.
    apply andb_true_iff in Hfree as [Hy _]. now apply negb_true_iff in Hy. }
  induction s as [|x s IH]; intros prev k Hs.
  - cbn [sub_from]. destruct k.
    + destruct (match_at r prev []).
      * split.
        -- rewrite <- (app_nil_r repl).
           now apply adjacent_free_app_free.
        -- intros _ d l H Hd. rewrite <- (app_nil_r repl) in H.
           apply Hhead in H. congruence.
      * split; [reflexivity | intros _ d l H; discriminate].
    + split; [reflexivity | discriminate].
  - pose proof (adjacent_free_tail p x s Hs) as Hs'.
    cbn [sub_from]. destruct k as [|k].
    + destruct (match_at r prev (x :: s)) as [rest|].
      * destruct (List.length (x :: s) - List.length rest)%nat as [|n].
        -- assert (Hx : adjacent_free p (x :: sub_from r repl (Some x) s 0) = true).
           { apply adjacent_free_cons. split; [apply (IH (Some x) 0%nat Hs')|].
             intros Hc d l E.
             destruct (p d) eqn:Hd; [|reflexivity].
             destruct (IH (Some x) 0%nat Hs') as [_ Hfirst].
             destruct (Hfirst eq_refl d l E Hd) as (l' & ->).
             apply adjacent_free_cons in Hs as [_ Hs].
             rewrite (Hs Hc d l' eq_refl) in Hd. discriminate. }
           split; [now apply adjacent_free_app_free|].
           intros _ d l H Hd. apply Hhead in H. congruence.
        -- split; [apply adjacent_free_app_free; try assumption;
                   apply (IH (Some x) n Hs')|].
           intros _ d l H Hd. apply Hhead in H. congruence.
      * split.
        -- apply adjacent_free_cons. split; [apply (IH (Some x) 0%nat Hs')|].
           intros Hc d l E.
           destruct (p d) eqn:Hd; [|reflexivity].
           destruct (IH (Some x) 0%nat Hs') as [_ Hfirst].
           destruct (Hfirst eq_refl d l E Hd) as (l' & ->).
           apply adjacent_free_cons in Hs as [_ Hs].
           rewrite (Hs Hc d l' eq_refl) in Hd. discriminate.
        -- intros _ d l [= <- _] _. now exists s.
    + split; [apply (IH (Some x) k Hs') | discriminate].
Qed.

Lemma sub_adjacent_free p r repl s :
  repl <> [] -> forallb (non p) repl = true ->
  adjacent_free p s = true -> adjacent_free p (sub r repl s) = true.
Proof.
  intros Hne Hfree Hs.
  apply (sub_from_adjacent_free p r repl Hne Hfree s None 0%nat Hs).
Qed.

End Matcher.

End SubFacts.

(* ================================================================== *)
(** * Further properties of the sanitizer *)
(* ================================================================== *)

Section DirectionProperties.

Import PyFacts DirectionFacts PrivacyShield.

(** X1. Direction repair loses nothing: reversing every line twice
    gives the text back, so the input is the output or the output
    reversed line by line once more; the length of the text is kept. *)
Theorem direction_repair_round_trip :
  forall text : str,
    mirror (mirror text) = text /\
    (detect_and_fix_direction text = text \/
     mirror (detect_and_fix_direction text) = text) /\
    List.length (detect_and_fix_direction text) = List.length text.
Proof.
  intros text. split; [apply mirror_involutive|].
  unfold detect_and_fix_direction.
  change (join [LF] (map (@rev char) (split_on LF text))) with (mirror text).
  destruct (_ <? _)%nat.
  - split; [right; apply mirror_involutive | apply mirror_length].
  - split; [now left | reflexivity].
Qed.

(** X2. Direction repair is stable: in a repaired text the two keyword
    counts have changed places, so repairing the output again leaves
    it as it is. *)
Theorem direction_repair_stable :
  forall text : str,
    keyword_score KEYWORDS_NORMAL (mirror text)
      = keyword_score KEYWORDS_REVERSED text /\
    keyword_score KEYWORDS_REVERSED (mirror text)
      = keyword_score KEYWORDS_NORMAL text /\
    detect_and_fix_direction (detect_and_fix_direction text)
      = detect_and_fix_direction text.
Proof.
  intros text.
  destruct keywords_one_line as [Hn Hr].
  assert (En : keyword_score KEYWORDS_NORMAL (mirror text)
               = keyword_score KEYWORDS_REVERSED text)
    by (rewrite (keyword_score_mirror _ text Hn); reflexivity).
  assert (Er : keyword_score KEYWORDS_REVERSED (mirror text)
               = keyword_score KEYWORDS_NORMAL text)
    by (rewrite (keyword_score_mirror _ text Hr); reflexivity).
  split; [exact En|]. split; [exact Er|].
  unfold detect_and_fix_direction at 2.
  change (join [LF] (map (@rev char) (split_on LF text))) with (mirror text).
  destruct (keyword_score KEYWORDS_NORMAL text
            <? keyword_score KEYWORDS_REVERSED text)%nat eqn:E.
  - unfold detect_and_fix_direction. rewrite En, Er, E.
    apply Nat.ltb_lt in E.
    assert (E' : (keyword_score KEYWORDS_REVERSED text
                  <? keyword_score KEYWORDS_NORMAL text)%nat = false)
      by (apply Nat.ltb_ge; lia).
    now rewrite E'.
  - unfold detect_and_fix_direction. now rewrite E.
Qed.

End DirectionProperties.

Section CleaningProperties.

Import PyFacts SubFacts ClauseFacts PrivacyShield PrivacyTerms.
Local Open Scope N_scope.

Context {U : UnicodeTables}.

Lemma clean_ocr_noise_steps text :
  clean_ocr_noise text
  = strip
      (sub (Cls (chr LF) +++ Star spc +++ Cls (chr LF) +++ Star spc
            +++ plus (chr LF))%re [LF; LF]
        (sub (plus blank) [SP]
          (sub (atleast 3 (chr 95)) [SP]
            (sub (Cls (oneof (lit "|~^§`®©™"))) [SP]
              (sub (Cls (range 8192 8207)) [SP]
                (sub (iword (lit "www.camscanner.com")) [SP]
                  (sub (iword (lit "scanned with camscanner") +++ Star dot)%re
                       [SP] text))))))).
Proof. reflexivity. Qed.

Lemma strip_chars s c : In c (strip s) -> In c s.
Proof.
  intros H. destruct (strip_of_infix isspace s) as (a & b & E).
  rewrite E. apply in_or_app. right. apply in_or_app. now left.
Qed.

(** X3. The cleaned text has none of the characters the noise patterns
    name one by one (the directional marks U+2000 to U+200F and the
    symbols of the fourth pattern), and no tab. *)
Theorem clean_ocr_noise_no_noise_chars :
  forall (text : str) (c : char),
    In c (clean_ocr_noise text) ->
    noise_char c = false /\ c <> 9.
Proof.
  intros text c H. rewrite clean_ocr_noise_steps in H.
  apply strip_chars in H.
  apply sub_chars in H.
  destruct H as [H | [<-|[<-|[]]]]; [|split; [reflexivity|discriminate]..].
  rewrite sub_plus in H. apply squeeze_chars in H.
  destruct H as [[H Hb] | [<-|[]]]; [|split; [reflexivity|discriminate]].
  assert (Htab : c <> 9) by (intros ->; discriminate Hb).
  split; [|exact Htab].
  apply sub_chars in H.
  destruct H as [H | [<-|[]]]; [|reflexivity].
  unfold noise_char. apply orb_false_iff.
  pose proof H as H4. apply sub_class_clears in H4.
  apply sub_chars in H.
  destruct H4 as [H4 | [<-|[]]]; [|split; reflexivity].
  split; [|exact H4].
  destruct H as [H | [<-|[]]]; [|reflexivity].
  apply sub_class_clears in H.
  destruct H as [H | [<-|[]]]; [exact H | reflexivity].
Qed.

(** X4. In the cleaned text no two neighbours are spaces or tabs, and
    the text neither starts nor ends with whitespace. *)
Theorem clean_ocr_noise_spacing :
  forall (text : str),
    adjacent_free blank (clean_ocr_noise text) = true /\
    (forall c, first_char (clean_ocr_noise text) = Some c -> isspace c = false) /\
    (forall c, last_char (clean_ocr_noise text) = Some c -> isspace c = false).
Proof.
  intros text. rewrite clean_ocr_noise_steps.
  set (cleaned := sub (plus blank) [SP] _).
  set (lines := sub _ [LF; LF] cleaned).
  assert (Hc : adjacent_free blank cleaned = true).
  { unfold cleaned. rewrite sub_plus. apply squeeze_adjacent_free. }
  assert (Hl : adjacent_free blank lines = true).
  { unfold lines. apply sub_adjacent_free; [discriminate | reflexivity | exact Hc]. }
  split; [|split].
  - destruct (strip_of_infix isspace lines) as (a & b & E).
    rewrite E in Hl. apply adjacent_free_suffix in Hl.
    now apply adjacent_free_prefix in Hl.
  - intros c H. unfold first_char in H.
    destruct (strip lines) as [|d r] eqn:E; [discriminate|].
    injection H as ->. exact (strip_of_head isspace lines c r E).
  - intros c H. unfold last_char in H.
    destruct (rev (strip lines)) as [|d r] eqn:E; [discriminate|].
    injection H as ->. exact (strip_of_last isspace lines c r E).
Qed.

(** X5. Every clause is on one line and single-spaced: its only
    whitespace is the space, no two spaces are neighbours, and it
    neither starts nor ends with one. *)
Theorem split_to_clauses_single_spaced :
  forall (text clause : str),
    In clause (split_to_clauses text) ->
    (forall c, In c clause -> isspace c = true -> c = SP) /\
    ~ In LF clause /\
    adjacent_free isspace clause = true /\
    (forall c, first_char clause = Some c -> isspace c = false) /\
    (forall c, last_char clause = Some c -> isspace c = false).
Proof.
  intros text clause Hin. unfold split_to_clauses in Hin.
  apply cleanup_clauses in Hin. destruct Hin as [[]|(f & _ & -> & _)].
  assert (Hchars : forall c,
    In c (strip (sub (plus spc) [SP] f)) -> isspace c = true -> c = SP).
  { intros c H Hs. apply strip_chars in H. rewrite sub_plus in H.
    apply squeeze_chars in H. destruct H as [[_ Hn] | [<-|[]]]; [|reflexivity].
    unfold spc in Hn. congruence. }
  split; [exact Hchars|]. split; [|split; [|split]].
  - intros H. specialize (Hchars LF H eq_refl). discriminate.
  - destruct (strip_of_infix isspace (sub (plus spc) [SP] f)) as (a & b & E).
    pose proof (squeeze_adjacent_free spc SP f) as (_ & Hf & _).
    rewrite <- sub_plus in Hf. rewrite E in Hf.
    apply adjacent_free_suffix in Hf. now apply adjacent_free_prefix in Hf.
  - intros c H. unfold first_char in H.
    destruct (strip (sub (plus spc) [SP] f)) as [|d r] eqn:E; [discriminate|].
    injection H as ->. exact (strip_of_head isspace _ c r E).
  - intros c H. unfold last_char in H.
    destruct (rev (strip (sub (plus spc) [SP] f))) as [|d r] eqn:E; [discriminate|].
    injection H as ->. exact (strip_of_last isspace _ c r E).
Qed.

End CleaningProperties.

Section MaskingProperties.

Import PyFacts SubFacts PrivacyShield PrivacyTerms.
Local Open Scope N_scope.

Context {U : UnicodeTables}.

Lemma plain_spec c :
  plain c = true -> d09 c = false /\ isdecimal c = false /\ (c =? 64) = false.
Proof.
  unfold plain. rewrite !andb_true_iff, !negb_true_iff. tauto.
Qed.

Lemma plain_not_zero c : d09 c = false -> (c =? 48) = false.
Proof.
  unfold d09, range. intros H. destruct (c =? 48) eqn:E; [|reflexivity].
  apply N.eqb_eq in E. subst. discriminate H.
Qed.

(** A star whose continuation fails wherever it is tried fails. *)
Lemma star_run_fails p k (Q : char -> Prop) : forall s prev,
  Forall Q s ->
  (forall prev' s', Forall Q s' -> k prev' s' = None) ->
  star_run p k prev s = None.
Proof.
  induction s as [|c s IH]; intros prev Hs Hk; cbn [star_run].
  - now apply Hk.
  - inversion Hs as [|? ? Hc Hs']; subst.
    destruct (p c); [|now apply Hk].
    rewrite (IH (Some c) Hs' Hk). now apply Hk.
Qed.

(** None of the five patterns matches at a position of a text without
    digits and at signs. *)
Lemma no_match_on_plain pattern prev s :
  In pattern (map (fun e => fst (snd e)) PII_PATTERNS) ->
  Forall (fun c => plain c = true) s ->
  match_at pattern prev s = None.
Proof.
  intros Hin Hs.
  assert (Hhead : forall c s', s = c :: s' ->
            d09 c = false /\ dig c = false /\ (c =? 64) = false
            /\ (c =? 48) = false).
  { intros c s' ->. inversion Hs as [|? ? Hc _]; subst.
    destruct (plain_spec c Hc) as (H1 & H2 & H3).
    repeat split; try assumption. now apply plain_not_zero. }
  cbn [map PII_PATTERNS fst snd] in Hin.
  destruct Hin as [<-|[<-|[<-|[<-|[<-|[]]]]]]; unfold match_at.
  - unfold israeli_id. cbn [run rep times].
    destruct (xorb _ _); [|reflexivity].
    destruct s as [|c s']; [reflexivity|].
    destruct (Hhead c s' eq_refl) as (-> & _). reflexivity.
  - unfold credit_card. cbn [run times].
    destruct (xorb _ _); [|reflexivity].
    destruct s as [|c s']; [reflexivity|].
    destruct (Hhead c s' eq_refl) as (_ & -> & _). reflexivity.
  - unfold phone_mobile. cbn [run word]. unfold chr.
    destruct (xorb _ _); [|reflexivity].
    destruct s as [|c s']; [reflexivity|].
    destruct (Hhead c s' eq_refl) as (_ & _ & _ & H0).
    change (lit "05") with [48; 53]. cbn [run word]. unfold chr. now rewrite H0.
  - unfold email, plus. cbn [run].
    destruct s as [|c s']; [reflexivity|].
    destruct (either az _ c); [|reflexivity].
    inversion Hs as [|? ? _ Hs']; subst.
    apply (star_run_fails _ _ (fun c => plain c = true)); [exact Hs'|].
    intros prev' t Ht. destruct t as [|x t]; [reflexivity|].
    inversion Ht as [|? ? Hx _]; subst.
    destruct (plain_spec x Hx) as (_ & _ & H3). unfold chr. now rewrite H3.
  - unfold bank_account. cbn [run rep times].
    destruct (xorb _ _); [|reflexivity].
    destruct s as [|c s']; [reflexivity|].
    destruct (Hhead c s' eq_refl) as (_ & -> & _). reflexivity.
Qed.

Lemma no_search_on_plain pattern : forall s prev,
  In pattern (map (fun e => fst (snd e)) PII_PATTERNS) ->
  Forall (fun c => plain c = true) s ->
  search_from pattern prev s = false.
Proof.
  induction s as [|c s IH]; intros prev Hin Hs; cbn [search_from];
    rewrite (no_match_on_plain pattern prev _ Hin Hs); [reflexivity|].
  inversion Hs; subst. now apply IH.
Qed.

(** X6. A text without digits and without an at sign passes the masking
    as it is, and nothing is reported as found. *)
Theorem sanitize_pii_plain_text :
  forall (text : str),
    Forall (fun c => plain c = true) text ->
    sanitize_pii text = (text, []).
Proof.
  intros text Hs.
  assert (H : forall pattern,
    In pattern (map (fun e => fst (snd e)) PII_PATTERNS) ->
    search pattern text = false)
    by (intros pattern Hin; now apply no_search_on_plain).
  assert (Hstep : forall label pattern repl found,
    search pattern text = false ->
    mask_step (text, found) (label, (pattern, repl)) = (text, found))
    by (intros label pattern repl found E; unfold mask_step; now rewrite E).
  unfold sanitize_pii, PII_PATTERNS. cbn [fold_left].
  repeat (rewrite Hstep by (apply H; cbn; tauto)).
  reflexivity.
Qed.

Lemma subseq_In {A : Type} (a b : list A) x :
  subseq a b -> In x a -> In x b.
Proof.
  induction 1 as [|y a b _ IH|y a b _ IH]; intros Hin.
  - exact Hin.
  - destruct Hin as [->|Hin]; [now left | right; now apply IH].
  - right. now apply IH.
Qed.

Lemma subseq_NoDup {A : Type} (a b : list A) :
  subseq a b -> NoDup b -> NoDup a.
Proof.
  induction 1 as [|y a b Hs IH|y a b _ IH]; intros Hb.
  - constructor.
  - inversion Hb as [|? ? Hy Hb']; subst. constructor; [|now apply IH].
    intros Hin. apply Hy. now apply (subseq_In a b).
  - inversion Hb; subst. now apply IH.
Qed.

Lemma subseq_nil_l {A : Type} (b : list A) : subseq [] b.
Proof. induction b; now constructor. Qed.

(** What the masking loop adds to the list of categories found *)
Lemma mask_fold table : forall text found,
  exists extra,
    snd (fold_left mask_step table (text, found)) = found ++ extra /\
    subseq extra (map fst table) /\
    (extra = [] -> fst (fold_left mask_step table (text, found)) = text).
Proof.
  induction table as [|[label [pattern repl]] table IH]; intros text found.
  - exists []. cbn. rewrite app_nil_r. repeat split. constructor.
  - cbn [fold_left map fst].
    change (mask_step (text, found) (label, (pattern, repl)))
      with (if search pattern text
            then (sub pattern repl text, found ++ [label])
            else (text, found)).
    destruct (search pattern text).
    + destruct (IH (sub pattern repl text) (found ++ [label])) as (extra & E & Hs & _).
      exists (label :: extra). split; [|split].
      * rewrite E. now rewrite <- app_assoc.
      * now constructor.
      * discriminate.
    + destruct (IH text found) as (extra & E & Hs & Ht).
      exists extra. split; [exact E|]. split; [now constructor | exact Ht].
Qed.

Lemma labels_distinct : NoDup PII_LABELS.
Proof.
  unfold PII_LABELS.
  repeat (constructor;
          [intros H; vm_compute in H; decompose [or] H;
           first [discriminate | contradiction]|]).
  constructor.
Qed.

(** X7. The categories reported as found are categories of the table,
    each at most once and in the order of the table; and when none is
    reported the text has not been changed. *)
Theorem sanitize_pii_found :
  forall (text : str),
    subseq (snd (sanitize_pii text)) PII_LABELS /\
    NoDup (snd (sanitize_pii text)) /\
    (snd (sanitize_pii text) = [] -> fst (sanitize_pii text) = text).
Proof.
  intros text. unfold sanitize_pii.
  destruct (mask_fold PII_PATTERNS text []) as (extra & E & Hs & Ht).
  cbn [app] in E. rewrite E.
  change (map fst PII_PATTERNS) with PII_LABELS in Hs.
  split; [exact Hs|]. split; [|exact Ht].
  exact (subseq_NoDup _ _ Hs labels_distinct).
Qed.

End MaskingProperties.

Section ClauseProperties.

Import PyFacts SubFacts DirectionFacts PrivacyShield PrivacyTerms.
Local Open Scope N_scope.

Context {U : UnicodeTables}.

Lemma line_budget_cons (l : str) (ls : list str) :
  line_budget (l :: ls) = (S (List.length l) + line_budget ls)%nat.
Proof. reflexivity. Qed.

Lemma line_budget_split text :
  line_budget (split_on LF text) = S (List.length text).
Proof.
  induction text as [|c s IH]; [reflexivity|].
  rewrite split_on_cons. destruct (c =? LF).
  - rewrite line_budget_cons, IH. reflexivity.
  - pose proof (split_on_nonempty LF s) as Hne.
    destruct (split_on LF s) as [|l ls]; [contradiction|].
    rewrite line_budget_cons in *. cbn [List.length]. lia.
Qed.

Lemma strip_length s : (List.length (strip s) <= List.length s)%nat.
Proof. apply strip_of_length. Qed.

(** While the lines read so far and those to come stay within sixteen
    characters, line ends counted, the line loop flushes nothing. *)
Lemma group_line_short lines : forall cur used,
  (cur = [] \/ List.length cur + 1 <= used)%nat ->
  (used + line_budget lines <= 16)%nat ->
  exists cur',
    fold_left group_line lines ([], cur) = ([], cur') /\
    (cur' = [] \/ List.length cur' + 1 <= 16)%nat.
Proof.
  induction lines as [|l lines IH]; intros cur used Hcur Hused.
  - exists cur. split; [reflexivity|].
    change (line_budget []) with 0%nat in Hused.
    destruct Hcur; [now left | right; lia].
  - rewrite line_budget_cons in Hused.
    pose proof (strip_length l) as Hl.
    pose proof (strip_length cur) as Hc.
    assert (Hflush : nonempty cur && long (strip cur) = false).
    { destruct cur as [|x cur]; [reflexivity|].
      cbn [nonempty andb]. unfold long. apply Nat.ltb_ge.
      destruct Hcur as [Hcur|Hcur]; [discriminate|]. lia. }
    cbn [fold_left]. unfold group_line at 2. cbv zeta.
    destruct (negb (nonempty (strip l))).
    + apply (IH cur (used + S (List.length l))%nat); [|lia].
      destruct Hcur; [now left | right; lia].
    + match goal with |- context [if ?b then _ else _] => destruct b end.
      * rewrite Hflush.
        apply (IH (strip l) (used + S (List.length l))%nat); [right; lia | lia].
      * destruct cur as [|x cur]; cbn [nonempty].
        -- apply (IH (strip l) (used + S (List.length l))%nat); [right; lia | lia].
        -- apply (IH _ (used + S (List.length l))%nat); [|lia].
           right. destruct Hcur as [Hcur|Hcur]; [discriminate|].
           rewrite !length_app. cbn [List.length] in *. lia.
Qed.

(** X8. A text of at most 15 characters gives no clause. *)
Theorem split_to_clauses_short_text :
  forall (text : str),
    (List.length text <= 15)%nat ->
    split_to_clauses text = [].
Proof.
  intros text Hlen.
  assert (Hg : group_lines text = []).
  { unfold group_lines.
    destruct (group_line_short (split_on LF text) [] 0%nat) as (cur & -> & Hcur);
      [now left | rewrite line_budget_split; lia |].
    destruct cur as [|x cur]; [reflexivity|].
    cbn [nonempty andb]. unfold long.
    pose proof (strip_length (x :: cur)).
    destruct Hcur as [Hcur|Hcur]; [discriminate|].
    assert (E : (15 <? List.length (strip (x :: cur)))%nat = false)
      by (apply Nat.ltb_ge; lia).
    now rewrite E. }
  unfold split_to_clauses. rewrite Hg. reflexivity.
Qed.

(** ** Contract confidence *)

Lemma confidence_fold (present : str -> bool) :
  forall (table : list (str * Z)) (score : Z),
    Forall (fun e => (0 < snd e)%Z) table ->
    let total :=
      fold_left (fun score '(keyword, weight) =>
                   if present keyword then (score + weight)%Z else score)
                table score in
    (score <= total)%Z /\
    (total = score <->
     forall keyword weight, In (keyword, weight) table -> present keyword = false).
Proof.
  induction table as [|[kw w] table IH]; intros score Hw; cbn [fold_left].
  - split; [lia|]. split; [intros _ ? ? []|reflexivity].
  - inversion Hw as [|? ? Hpos Hrest]; subst. cbn [snd] in Hpos.
    destruct (present kw) eqn:E.
    + destruct (IH (score + w)%Z Hrest) as [Hle Hiff]. split; [lia|].
      split; [intros H; lia|].
      intros H. specialize (H kw w (or_introl eq_refl)). congruence.
    + destruct (IH score Hrest) as [Hle Hiff]. split; [exact Hle|].
      rewrite Hiff. split.
      * intros H k x [[= <- <-]|Hin]; [exact E | now apply (H k x)].
      * intros H k x Hin. apply (H k x). now right.
Qed.

Lemma contract_weights_positive :
  Forall (fun e : str * Z => (0 < snd e)%Z) CONTRACT_KEYWORDS.
Proof.
  apply Forall_forall. intros e Hin.
  assert (H : forallb (fun e : str * Z => (0 <? snd e)%Z) CONTRACT_KEYWORDS = true)
    by reflexivity.
  rewrite forallb_forall in H. now apply Z.ltb_lt, H.
Qed.

(** X9. The contract confidence is between 0 and 100, and it is 0
    exactly when none of the keywords occurs in the text or in the
    lowercased text. *)
Theorem calculate_contract_confidence_range :
  forall (text : str),
    (0 <= calculate_contract_confidence text <= 100)%Z /\
    (calculate_contract_confidence text = 0%Z <->
     forall keyword weight,
       In (keyword, weight) CONTRACT_KEYWORDS ->
       contains keyword text = false /\ contains keyword (lower text) = false).
Proof.
  intros text. unfold calculate_contract_confidence. cbv zeta.
  destruct (confidence_fold
              (fun keyword => contains keyword text || contains keyword (lower text))
              CONTRACT_KEYWORDS 0%Z contract_weights_positive) as [Hle Hiff].
  cbv zeta in Hle, Hiff.
  set (total := fold_left _ CONTRACT_KEYWORDS 0%Z) in *.
  split; [lia|]. split.
  - intros H. assert (Ht : total = 0%Z) by lia.
    intros keyword weight Hin. apply orb_false_iff.
    now apply (proj1 Hiff Ht keyword weight).
  - intros H. assert (Ht : total = 0%Z).
    { apply Hiff. intros keyword weight Hin. apply orb_false_iff.
      now apply (H keyword weight). }
    rewrite Ht. reflexivity.
Qed.

End ClauseProperties.

(* ================================================================== *)
(** * Further properties of [recalculate_scores] *)
(* ================================================================== *)

Section ScoreProperties.

Import AiAnalyzer ScoreFacts DictFacts Analyzer.
Local Open Scope string_scope.
Local Open Scope Z_scope.

Context {U : UnicodeTables}.

(** X10. Recalculating is idempotent: on a result flagged as a contract
    whose issues are issue records, a second run on the output of the
    first returns that output unchanged. *)
Theorem recalculate_scores_idempotent :
  forall (a r : dict) (issues : list json),
    truthy (Dict.get_default "is_contract" (JBool true) a) = true ->
    Dict.get "issues" a = Some (JList issues) ->
    forallb well_formed issues = true ->
    recalculate_scores a = Ok r ->
    recalculate_scores r = Ok r.
Proof.
  intros a r issues Hc Hi Hwf Hr.
  pose proof (returned_finite a issues r Hc Hi Hwf Hr) as Hfin.
  destruct (recalculate_scores_contract a issues Hc Hi Hwf Hfin)
    as (s & p & Hr' & Hk & Hs & Hp).
  rewrite Hr' in Hr. injection Hr as Hr.
  assert (Hc2 : truthy (Dict.get_default "is_contract" (JBool true) r) = true).
  { rewrite <- Hr. unfold Dict.get_default in *.
    now rewrite !get_set_other by discriminate. }
  assert (Hi2 : Dict.get "issues" r = Some (JList (filter accepted issues))).
  { rewrite <- Hr. rewrite !get_set_other by discriminate.
    apply get_set_same. }
  assert (Hb2 : Dict.get "score_breakdown" r = Some (JDict (build_breakdown s p))).
  { rewrite <- Hr. rewrite get_set_other by discriminate.
    apply get_set_same. }
  assert (Ho2 : Dict.get "overall_risk_score" r = Some (JInt (sum_values s))).
  { rewrite <- Hr. apply get_set_same. }
  destruct (recalculate_scores_contract r _ Hc2 Hi2 (well_formed_accepted _ Hwf)
              (infinite_accepted _ Hfin))
    as (s2 & p2 & Hr2 & Hk2 & Hs2 & Hp2).
  assert (Es : s2 = s).
  { apply table_ext; try assumption. intros cat Hin.
    rewrite (Hs2 cat Hin), (Hs cat Hin). now rewrite penalties_in_accepted. }
  assert (Eb : build_breakdown s2 p2 = build_breakdown s p).
  { subst s2. unfold build_breakdown. apply map_ext. intros kv.
    now rewrite Hp2, Hp, penalties_in_accepted. }
  rewrite Hr2, filter_accepted_twice, Eb, Es.
  rewrite (set_get_same _ _ _ Hi2), (set_get_same _ _ _ Hb2).
  now rewrite (set_get_same _ _ _ Ho2).
Qed.



Lemma for_each_app {A S : Type} (body : S -> A -> result S) l1 : forall l2 st,
  for_each body (l1 ++ l2) st
  = bind (for_each body l1 st) (for_each body l2).
Proof.
  induction l1 as [|x l1 IH]; intros l2 st; [reflexivity|].
  cbn [app for_each]. destruct (body st x); [apply IH | reflexivity].
Qed.

(** X12. Without an issues entry a result flagged as a contract gets
    the full scores: an empty issues list, 20 in every category and 100
    overall. *)
Theorem recalculate_scores_no_issues_entry :
  forall (a : dict),
    truthy (Dict.get_default "is_contract" (JBool true) a) = true ->
    Dict.get "issues" a = None ->
    exists r,
      recalculate_scores a = Ok r /\
      Dict.get "issues" r = Some (JList []) /\
      Dict.get "overall_risk_score" r = Some (JInt 100) /\
      (forall cat, In cat CATEGORIES ->
         breakdown_entry r cat "score" = Some (JInt 20) /\
         breakdown_entry r cat "penalties" = Some (JInt 0)).
Proof.
  intros a Hc Hi. eexists. split; [|split; [|split]].
  - unfold recalculate_scores. rewrite Hc. cbn [negb].
    unfold Dict.get_default at 1. rewrite Hi. cbn. reflexivity.
  - rewrite !get_set_other by discriminate. apply get_set_same.
  - apply get_set_same.
  - intros cat Hin. unfold breakdown_entry.
    rewrite get_set_other by discriminate. rewrite get_set_same.
    unfold CATEGORIES in Hin. cbn in Hin.
    destruct Hin as [<-|[<-|[<-|[<-|[<-|[]]]]]]; split; reflexivity.
Qed.

(** X13. The calculation is not total.  On a result flagged as a
    contract it raises [TypeError] when the issues entry is null, a
    boolean or a number.  In a list it stops at the first issue that is
    no issue record with a penalty other than an infinite float: with
    [AttributeError] on an issue that is not an object; with
    [OverflowError] on an object whose penalty is an infinite float,
    whatever its rule identifier, the penalty being converted first;
    and with [TypeError] on an object of another penalty whose rule
    identifier is a non-zero number or [true]. *)
Theorem recalculate_scores_raises :
  forall (a : dict),
    truthy (Dict.get_default "is_contract" (JBool true) a) = true ->
    (forall v, Dict.get "issues" a = Some v ->
       v = JNull \/ (exists b, v = JBool b) \/ (exists z, v = JInt z) \/
       (exists f, v = JFloat f) ->
       recalculate_scores a = Raise TypeError) /\
    (forall records bad rest,
       Dict.get "issues" a = Some (JList (records ++ bad :: rest)) ->
       forallb well_formed records = true ->
       existsb infinite_penalty records = false ->
       (match bad with JDict _ => False | _ => True end ->
        recalculate_scores a = Raise AttributeError) /\
       (infinite_penalty bad = true ->
        recalculate_scores a = Raise OverflowError) /\
       (forall d, bad = JDict d ->
          infinite_penalty bad = false ->
          (exists z, Dict.get "rule_id" d = Some (JInt z) /\ z <> 0) \/
          Dict.get "rule_id" d = Some (JBool true) \/
          (exists f, Dict.get "rule_id" d = Some (JFloat f) /\
                     truthy (JFloat f) = true) ->
          recalculate_scores a = Raise TypeError)).
Proof.
  intros a Hc. split.
  - intros v Hi Hv. unfold recalculate_scores. rewrite Hc. cbn [negb].
    unfold Dict.get_default at 1. rewrite Hi.
    destruct Hv as [->|[(b & ->)|[(z & ->)|(f & ->)]]]; reflexivity.
  - intros records bad rest Hi Hwf Hfin.
    assert (Hrun : forall e,
      (forall st, score_issue st bad = Raise e) ->
      recalculate_scores a = Raise e).
    { intros e He. unfold recalculate_scores. rewrite Hc. cbn [negb].
      unfold Dict.get_default at 1. rewrite Hi. cbn [py_iter bind].
      rewrite for_each_app, (for_each_well_formed records _ Hwf Hfin).
      cbn [bind for_each]. now rewrite He. }
    split; [|split].
    + intros Hbad. apply Hrun. intros st.
      destruct bad; try reflexivity. contradiction.
    + intros Hinf. apply Hrun. intros st.
      destruct bad as [| | | | | |d]; try discriminate.
      unfold score_issue. cbn [py_dict bind].
      now rewrite (penalty_of_infinite d Hinf).
    + intros d -> Hf Hd. apply Hrun. intros st.
      unfold score_issue. cbn [py_dict bind].
      rewrite (penalty_of_finite d Hf). cbn [bind].
      unfold Dict.get_default.
      destruct Hd as [(z & -> & Hz) | [-> | (f & -> & Hf')]].
      * cbn [truthy]. destruct (Z.eqb z 0) eqn:E; [|reflexivity].
        apply Z.eqb_eq in E. contradiction.
      * reflexivity.
      * rewrite Hf'. reflexivity.
Qed.

(** X14. After a parse failure the fallback result is recalculated
    like any other: whatever the error message, its placeholder scores
    of 10 and 50 are replaced by 20 in every category and 100 overall,
    and the message stays in [parse_error]. *)
Theorem fallback_response_recalculated :
  forall (error_message : str),
    exists r,
      recalculate_scores (create_fallback_response error_message) = Ok r /\
      Dict.get "overall_risk_score" r = Some (JInt 100) /\
      (forall cat, In cat CATEGORIES ->
         breakdown_entry r cat "score" = Some (JInt 20)) /\
      Dict.get "issues" r = Some (JList []) /\
      Dict.get "is_contract" r = Some (JBool true) /\
      Dict.get "parse_error" r = Some (JStr error_message).
Proof.
  intros error_message. eexists. split; [reflexivity|].
  split; [reflexivity|]. split; [|repeat split].
  intros cat Hin. unfold CATEGORIES in Hin. cbn in Hin.
  destruct Hin as [<-|[<-|[<-|[<-|[<-|[]]]]]]; reflexivity.
Qed.

End ScoreProperties.

(* ================================================================== *)
(** * [ai-analyzer.py]: the helpers and the handler *)
(* ================================================================== *)

Section LanguageProperties.

Import PyFacts DirectionFacts SubFacts DictFacts ScoreFacts AiAnalyzer Analyzer.
Local Open Scope string_scope.
Local Open Scope list_scope.
Local Open Scope N_scope.

Context {U : UnicodeTables}.
Variable ratio_exceeds : nat -> nat -> bool.
(** ** The language check *)

Lemma short_text_sample (text : str) :
  negb (nonempty text) || (List.length text <? 100)%nat
  = (List.length (firstn 2000 text) <? 100)%nat.
Proof.
  rewrite length_firstn.
  destruct text as [|c text]; [reflexivity|]. cbn [nonempty negb orb].
  destruct (List.length (c :: text) <? 100)%nat eqn:E.
  - apply Nat.ltb_lt in E. symmetry. apply Nat.ltb_lt. lia.
  - apply Nat.ltb_ge in E. symmetry. apply Nat.ltb_ge. lia.
Qed.

Lemma count_if_none (test : char -> bool) (s : str) :
  (forall c, In c s -> test c = false) -> count_if test s = 0%nat.
Proof.
  intros H. unfold count_if. induction s as [|c s IH]; [reflexivity|].
  cbn [filter]. rewrite (H c) by now left.
  apply IH. intros d Hd. apply H. now right.
Qed.

(** X15. The language check reads the first 2000 characters only: two
    texts that agree on them get the same verdict. *)
Theorem detect_language_sample :
  forall (t1 t2 : str),
    firstn 2000 t1 = firstn 2000 t2 ->
    detect_language ratio_exceeds t1 = detect_language ratio_exceeds t2.
Proof.
  intros t1 t2 H. unfold detect_language.
  rewrite !short_text_sample, H. reflexivity.
Qed.

(** X16. A text of ASCII and Hebrew characters alone is never found
    unsupported, whatever its proportions, as long as the quotient 0 is
    not found to exceed 0.3. *)
Theorem detect_language_hebrew_ascii :
  forall (text : str),
    (forall n, (0 < n)%nat -> ratio_exceeds 0 n = false) ->
    forallb (fun c => (c <=? 127) || hebrew c) text = true ->
    detect_language ratio_exceeds text <> lit "unsupported".
Proof.
  intros text Hr Ht. unfold detect_language.
  destruct (negb (nonempty text) || (List.length text <? 100)%nat);
    [vm_compute; discriminate|].
  cbv zeta.
  assert (Ho : count_if (fun c => (127 <? c) && negb (hebrew c))
                        (firstn 2000 text) = 0%nat).
  { apply count_if_none. intros c Hc.
    assert (Hin : In c text)
      by (rewrite <- (firstn_skipn 2000 text); apply in_or_app; now left).
    rewrite forallb_forall in Ht. specialize (Ht c Hin).
    apply orb_true_iff in Ht as [Ht|Ht].
    - apply N.leb_le in Ht. apply andb_false_iff. left. apply N.ltb_ge. exact Ht.
    - rewrite Ht. apply andb_false_r. }
  rewrite Ho.
  match goal with |- context [(?n =? 0)%nat] => destruct (n =? 0)%nat eqn:E end;
    [vm_compute; discriminate|].
  apply Nat.eqb_neq in E. rewrite Hr by lia. vm_compute. discriminate.
Qed.

End LanguageProperties.

Section AnswerProperties.

Import PyFacts DirectionFacts SubFacts DictFacts ScoreFacts AiAnalyzer Analyzer.
Local Open Scope string_scope.
Local Open Scope list_scope.
Local Open Scope N_scope.

Context {U : UnicodeTables}.
(** ** The answer of the model *)

Lemma existsb_eqb (x : char) (s : str) : existsb (N.eqb x) s = true <-> In x s.
Proof.
  rewrite existsb_exists. split.
  - intros (y & Hy & E). apply N.eqb_eq in E. now subst.
  - intros H. exists x. split; [exact H | apply N.eqb_refl].
Qed.

Lemma existsb_eqb_false (x : char) (s : str) :
  existsb (N.eqb x) s = false <-> ~ In x s.
Proof.
  rewrite <- existsb_eqb. destruct (existsb (N.eqb x) s); split; congruence.
Qed.

(** The continuation of the star of [braces]: a closing brace here *)
Lemma closing_run (s : str) : forall prev,
  match star_run (fun _ => true)
          (fun prev' s' => run (Cls (chr 125)) prev' s' (fun _ rest => Some rest))
          prev s with
  | Some rest => exists m, s = m ++ 125 :: rest /\ ~ In 125 rest
  | None => ~ In 125 s
  end.
Proof.
  induction s as [|c s IH]; intros prev.
  - cbn. tauto.
  - cbn [star_run]. specialize (IH (Some c)).
    destruct (star_run _ _ (Some c) s) as [rest|].
    + destruct IH as (m & -> & Hr). exists (c :: m). now split.
    + cbn [run]. unfold chr. destruct (c =? 125) eqn:E.
      * apply N.eqb_eq in E. subst c. exists []. now split.
      * apply N.eqb_neq in E. intros [H|H]; [congruence | now apply IH].
Qed.

Lemma match_at_braces prev (s : str) :
  match_at braces prev s
  = match s with
    | c :: s' =>
      if c =? 123
      then star_run (fun _ => true)
             (fun prev' s' => run (Cls (chr 125)) prev' s' (fun _ rest => Some rest))
             (Some c) s'
      else None
    | [] => None
    end.
Proof. destruct s; reflexivity. Qed.

Lemma firstn_prefix (a r : str) :
  firstn (List.length (a ++ r) - List.length r) (a ++ r) = a.
Proof.
  rewrite length_app, Nat.add_sub, firstn_app, Nat.sub_diag, firstn_all.
  cbn [firstn]. apply app_nil_r.
Qed.

(** What [re.search(r'\{.*\}', text, re.DOTALL)] finds: the text from
    the first opening brace to the last closing brace *)
Lemma find_braces (s : str) : forall prev,
  match find_from braces prev s with
  | Some m =>
    exists a b c, s = a ++ m ++ c /\ m = 123 :: b ++ [125] /\
                  ~ In 123 a /\ ~ In 125 c
  | None => brace_pair s = false
  end.
Proof.
  induction s as [|c s IH]; intros prev.
  - reflexivity.
  - cbn [find_from brace_pair]. rewrite match_at_braces.
    destruct (c =? 123) eqn:E.
    + apply N.eqb_eq in E. subst c.
      match goal with
      | |- context [star_run ?p ?k ?pr s] =>
        assert (Hrun : match star_run p k pr s with
                       | Some rest => exists m, s = m ++ 125 :: rest /\ ~ In 125 rest
                       | None => ~ In 125 s
                       end) by apply closing_run;
        destruct (star_run p k pr s) as [rest|]
      end.
      * destruct Hrun as (m & -> & Hr).
        exists [], m, rest. split; [|split; [|split]]; try tauto.
        -- cbn [app].
           change (123 :: m ++ 125 :: rest) with ((123 :: m) ++ 125 :: rest).
           replace ((123 :: m) ++ 125 :: rest)
             with (((123 :: m) ++ [125]) ++ rest)
             by (rewrite <- app_assoc; reflexivity).
           now rewrite firstn_prefix.
        -- change (123 :: m ++ 125 :: rest) with ((123 :: m) ++ 125 :: rest).
           replace ((123 :: m) ++ 125 :: rest)
             with (((123 :: m) ++ [125]) ++ rest)
             by (rewrite <- app_assoc; reflexivity).
           now rewrite firstn_prefix.
      * cbv beta iota.
        match goal with
        | |- context [find_from braces ?pr s] =>
          specialize (IH pr); destruct (find_from braces pr s) as [m|]
        end.
        -- destruct IH as (a & b & c & -> & -> & _ & _). exfalso. apply Hrun.
           apply in_or_app. right. apply in_or_app. left.
           right. apply in_or_app. right. now left.
        -- now apply existsb_eqb_false.
    + match goal with
      | |- context [find_from braces ?pr s] =>
        specialize (IH pr); destruct (find_from braces pr s) as [m|]
      end; [|exact IH].
      destruct IH as (a & b & c' & -> & -> & Ha & Hc).
      exists (c :: a), b, c'. repeat split; try assumption.
      apply N.eqb_neq in E. intros [H|H]; [congruence | now apply Ha].
Qed.

Lemma brace_pair_spec (s : str) :
  brace_pair s = false <-> forall a b, s = a ++ 123 :: b -> ~ In 125 b.
Proof.
  induction s as [|c s IH]; cbn [brace_pair].
  - split; [intros _ [|? ?] ?; discriminate | reflexivity].
  - destruct (c =? 123) eqn:E.
    + apply N.eqb_eq in E. subst c. rewrite existsb_eqb_false. split.
      * intros Hn [|x a] b [= Hs]; [now subst|].
        subst. intros Hin. apply Hn. apply in_or_app. right. now right.
      * intros H. now apply (H [] s).
    + apply N.eqb_neq in E. rewrite IH. split.
      * intros H [|x a] b [= Hc Hs]; [congruence|]. now apply (H a b).
      * intros H a b ->. now apply (H (c :: a) b).
Qed.

Lemma existsb_filter_brace (s : str) :
  existsb (N.eqb 125) (filter brace s) = existsb (N.eqb 125) s.
Proof.
  induction s as [|c s IH]; [reflexivity|]. cbn [filter existsb].
  unfold brace at 1. destruct (c =? 123) eqn:E1; cbn [orb].
  - cbn [existsb]. now rewrite IH.
  - destruct (c =? 125) eqn:E2.
    + cbn [existsb]. apply N.eqb_eq in E2. subst. reflexivity.
    + rewrite IH. rewrite N.eqb_sym, E2. reflexivity.
Qed.

Lemma brace_pair_filter (s : str) : brace_pair (filter brace s) = brace_pair s.
Proof.
  induction s as [|c s IH]; [reflexivity|]. cbn [filter brace_pair].
  unfold brace at 1. destruct (c =? 123) eqn:E1; cbn [orb].
  - cbn [brace_pair]. rewrite E1. apply existsb_filter_brace.
  - destruct (c =? 125) eqn:E2; [|exact IH].
    cbn [brace_pair]. now rewrite E1.
Qed.

Lemma startswith_length (p : str) : forall s,
  startswith p s = true -> (List.length p <= List.length s)%nat.
Proof.
  intros s H. apply startswith_spec in H as (b & ->). rewrite length_app. lia.
Qed.

Lemma startswith_firstn (p : str) : forall s,
  startswith p s = true -> firstn (List.length p) s = p.
Proof.
  intros s H. apply startswith_spec in H as (b & ->).
  rewrite firstn_app, Nat.sub_diag, firstn_all. cbn [firstn]. apply app_nil_r.
Qed.

(** Deleting the occurrences of a text without braces keeps the braces *)
Lemma filter_replace_from (old : str) :
  old <> [] -> forallb (non brace) old = true ->
  forall s k,
    forallb (non brace) (firstn k s) = true ->
    filter brace (replace_from old [] s k) = filter brace s.
Proof.
  intros Hne Hold. destruct old as [|o old]; [contradiction|]. clear Hne.
  cbn [forallb] in Hold. apply andb_true_iff in Hold as [Ho Hold].
  unfold non in Ho. apply negb_true_iff in Ho.
  induction s as [|c s IH]; intros k Hk.
  - now destruct k.
  - destruct k as [|k].
    + cbn [replace_from]. destruct (startswith (o :: old) (c :: s)) eqn:E.
      * cbn [app List.length Nat.pred].
        pose proof (startswith_firstn _ _ E) as Hf.
        cbn [List.length firstn] in Hf. injection Hf as -> Hf.
        rewrite (IH (List.length old)) by now rewrite Hf.
        cbn [filter]. now rewrite Ho.
      * cbn [filter]. now rewrite (IH 0%nat) by reflexivity.
    + cbn [replace_from]. cbn [firstn forallb] in Hk.
      apply andb_true_iff in Hk as [Hc Hk].
      unfold non in Hc. apply negb_true_iff in Hc.
      cbn [filter]. rewrite Hc. now apply IH.
Qed.

Lemma filter_replace (old s : str) :
  old <> [] -> forallb (non brace) old = true ->
  filter brace (replace old [] s) = filter brace s.
Proof.
  intros Hne Hold. now apply (filter_replace_from old Hne Hold s 0%nat).
Qed.

Lemma filter_lstrip (s : str) : filter brace (lstrip s) = filter brace s.
Proof.
  unfold lstrip. induction s as [|c s IH]; [reflexivity|].
  cbn [lstrip_of]. destruct (isspace c) eqn:E; [|reflexivity].
  rewrite IH. cbn [filter].
  assert (Hb : brace c = false).
  { unfold brace. destruct (c =? 123) eqn:E1.
    - apply N.eqb_eq in E1. subst. discriminate.
    - destruct (c =? 125) eqn:E2; [|reflexivity].
      apply N.eqb_eq in E2. subst. discriminate. }
  now rewrite Hb.
Qed.

Lemma filter_strip (s : str) : filter brace (strip s) = filter brace s.
Proof.
  unfold strip, strip_of. fold lstrip.
  rewrite filter_rev, filter_lstrip, filter_rev, filter_lstrip.
  apply rev_involutive.
Qed.

(** X17. The answer of the model is refused with [No JSON found]
    exactly when it holds no opening brace with a closing brace after
    it, and with no other message: the code fences that are deleted and
    the blanks that are stripped change nothing to that. *)
Theorem json_text_no_json :
  forall (ai_output_text : str),
    (json_text ai_output_text = inl (lit "No JSON found") <->
     forall a b, ai_output_text = a ++ 123 :: b -> ~ In 125 b) /\
    (forall message, json_text ai_output_text = inl message ->
       message = lit "No JSON found").
Proof.
  intros s. unfold json_text. cbv zeta.
  set (clean := strip (replace (lit "```") [] (replace (lit "```json") [] s))).
  assert (Hc : brace_pair clean = brace_pair s).
  { rewrite <- (brace_pair_filter clean), <- (brace_pair_filter s).
    unfold clean. rewrite filter_strip.
    rewrite !filter_replace; try reflexivity; vm_compute; discriminate. }
  pose proof (find_braces clean None) as Hf. fold (find braces clean) in Hf.
  rewrite <- brace_pair_spec, <- Hc.
  destruct (find braces clean) as [m|].
  - destruct Hf as (a & b & c & Ha & Hm & _ & _).
    split; [|discriminate]. split; [discriminate|].
    intros Hp. exfalso.
    apply (proj1 (brace_pair_spec clean) Hp a (b ++ 125 :: c)).
    + rewrite Ha, Hm. cbn [app]. now rewrite <- app_assoc.
    + apply in_or_app. right. now left.
  - split; [tauto|]. now intros message [= <-].
Qed.

(** *** The text handed to [json.loads] *)

Lemma replace_from_chars (old new : str) c : forall s k,
  In c (replace_from old new s k) -> In c new \/ In c s.
Proof.
  induction s as [|d s IH]; intros k Hin; [contradiction|].
  destruct k as [|k]; cbn [replace_from] in Hin.
  - destruct (startswith old (d :: s)).
    + apply in_app_or in Hin as [Hin|Hin]; [now left|].
      apply IH in Hin as [Hin|Hin]; [now left | right; now right].
    + destruct Hin as [<-|Hin]; [right; now left|].
      apply IH in Hin as [Hin|Hin]; [now left | right; now right].
  - apply IH in Hin as [Hin|Hin]; [now left | right; now right].
Qed.

Lemma replace_char (x : char) (new s : str) :
  replace [x] new s = flat_map (fun c => if c =? x then new else [c]) s.
Proof.
  unfold replace. induction s as [|c s IH]; [reflexivity|].
  cbn [replace_from flat_map startswith List.length Nat.pred].
  rewrite N.eqb_sym, andb_true_r.
  destruct (c =? x); rewrite IH; reflexivity.
Qed.

Lemma startswith_snoc (old s : str) c :
  ~ In c old -> startswith old (s ++ [c]) = startswith old s.
Proof. intros H. now apply startswith_before_sep. Qed.

(** A last character that is none of [old] stays where it is *)
Lemma replace_from_snoc (old new : str) c :
  old <> [] -> ~ In c old ->
  forall s k, (k <= List.length s)%nat ->
    replace_from old new (s ++ [c]) k = replace_from old new s k ++ [c].
Proof.
  intros Hne Hc. induction s as [|d s IH]; intros k Hk.
  - cbn [List.length] in Hk. assert (k = 0%nat) by lia. subst k.
    cbn [app replace_from].
    destruct old as [|o old]; [contradiction|].
    cbn [startswith].
    destruct (o =? c) eqn:E; [|reflexivity].
    apply N.eqb_eq in E. subst. exfalso. apply Hc. now left.
  - destruct k as [|k].
    + change ((d :: s) ++ [c]) with (d :: (s ++ [c])).
      cbn [replace_from].
      change (d :: (s ++ [c])) with ((d :: s) ++ [c]).
      rewrite (startswith_snoc old (d :: s) c Hc).
      destruct (startswith old (d :: s)) eqn:E.
      * rewrite IH; [now rewrite app_assoc|].
        apply startswith_length in E. cbn [List.length] in E. lia.
      * rewrite IH by lia. reflexivity.
    + change ((d :: s) ++ [c]) with (d :: (s ++ [c])).
      cbn [replace_from]. apply IH. cbn [List.length] in Hk. lia.
Qed.

Lemma control_free (s : str) c :
  In c (sub (Cls control_char) [] s) -> control_char c = false.
Proof.
  intros H. apply sub_class_clears in H as [H|[]]. exact H.
Qed.

(** X18. The text handed to [json.loads] goes from an opening brace to
    a closing brace, and holds no carriage return and none of the
    control characters that are removed. *)
Theorem json_text_clean :
  forall (ai_output_text json_str : str),
    json_text ai_output_text = inr json_str ->
    first_char json_str = Some 123 /\
    last_char json_str = Some 125 /\
    forall c, In c json_str -> control_char c = false /\ c <> 13.
Proof.
  intros s t. unfold json_text. cbv zeta.
  set (clean := strip (replace (lit "```") [] (replace (lit "```json") [] s))).
  pose proof (find_braces clean None) as Hf. fold (find braces clean) in Hf.
  destruct (find braces clean) as [m|]; [|discriminate].
  destruct Hf as (_ & b & _ & _ & Hm & _ & _). intros [= <-].
  assert (H1 : exists b1,
             sub (Cls control_char) [] m = 123 :: b1 ++ [125]).
  { exists (flat_map (fun c => if control_char c then [] else [c]) b).
    unfold sub. rewrite sub_from_class, Hm.
    cbn [flat_map]. rewrite flat_map_app. reflexivity. }
  destruct H1 as (b1 & H1).
  pose proof (control_free m) as Hfree. rewrite H1 in *.
  set (nl := lit "\n").
  assert (H2 : replace [13; 10] nl (123 :: b1 ++ [125])
               = 123 :: replace [13; 10] nl b1 ++ [125]).
  { unfold replace at 1. cbn [replace_from startswith N.eqb Pos.eqb andb].
    f_equal. apply replace_from_snoc; [discriminate | | lia].
    cbn [In]. intros [H|[H|[]]]; discriminate. }
  assert (Hb2 : forall c, In c (123 :: replace [13; 10] nl b1 ++ [125]) ->
                          control_char c = false).
  { rewrite <- H2. intros c Hc. apply replace_from_chars in Hc as [Hc|Hc].
    - vm_compute in Hc. destruct Hc as [<-|[<-|[]]]; reflexivity.
    - now apply Hfree. }
  rewrite H2, replace_char.
  set (b2 := replace [13; 10] nl b1) in *.
  cbn [flat_map N.eqb Pos.eqb app]. rewrite flat_map_app.
  cbn [flat_map N.eqb Pos.eqb app].
  split; [reflexivity|]. split.
  - unfold last_char.
    change (123 :: flat_map (fun c => if c =? 13 then nl else [c]) b2 ++ [125])
      with ((123 :: flat_map (fun c => if c =? 13 then nl else [c]) b2) ++ [125]).
    now rewrite rev_app_distr.
  - intros c Hc.
    assert (Hc' : In c (flat_map (fun c => if c =? 13 then nl else [c])
                                 (123 :: b2 ++ [125]))).
    { cbn [flat_map N.eqb Pos.eqb app]. rewrite flat_map_app.
      cbn [flat_map N.eqb Pos.eqb app]. exact Hc. }
    apply in_flat_map in Hc' as (d & Hd & Hcd).
    destruct (d =? 13) eqn:E.
    + vm_compute in Hcd. destruct Hcd as [<-|[<-|[]]]; split; try reflexivity;
        discriminate.
    + destruct Hcd as [<-|[]]. split; [now apply Hb2|].
      now apply N.eqb_neq.
Qed.

End AnswerProperties.

Section DefaultProperties.

Import PyFacts DirectionFacts SubFacts DictFacts ScoreFacts AiAnalyzer Analyzer.
Local Open Scope string_scope.
Local Open Scope list_scope.
Local Open Scope N_scope.

Context {U : UnicodeTables}.
Variable json_loads : str -> str + dict.
(** *** The defaults *)

Lemma get_setdefault k v d k' :
  Dict.get k' (setdefault k v d)
  = match Dict.get k' d with
    | Some x => Some x
    | None => if String.eqb k' k then Some v else None
    end.
Proof.
  unfold setdefault. destruct (String.eqb_spec k' k) as [->|Hne].
  - destruct (Dict.get k d) eqn:E; [exact E | apply get_set_same].
  - destruct (Dict.get k d) eqn:E.
    + now destruct (Dict.get k' d).
    + rewrite get_set_other by exact Hne. now destruct (Dict.get k' d).
Qed.

(** X19. A parsed answer keeps every entry of the object [json.loads]
    gives, and has the three defaults for the keys the object leaves
    out. *)
Theorem parse_json_response_defaults :
  forall (ai_output_text : str) (data : dict),
    parse_json_response json_loads ai_output_text = inr data ->
    exists json_str loaded,
      json_text ai_output_text = inr json_str /\
      json_loads json_str = inr loaded /\
      forall k, Dict.get k data
                = match Dict.get k loaded with
                  | Some v => Some v
                  | None => Dict.get k DEFAULTS
                  end.
Proof.
  intros s data. unfold parse_json_response.
  destruct (json_text s) as [message|t]; [discriminate|].
  destruct (json_loads t) as [message|loaded] eqn:El; [discriminate|].
  cbv zeta. intros [= <-]. exists t, loaded.
  split; [reflexivity|]. split; [exact El|].
  intros k. rewrite !get_setdefault.
  destruct (Dict.get k loaded); [reflexivity|].
  unfold DEFAULTS. cbn [Dict.get].
  destruct (String.eqb k "is_contract"); [reflexivity|].
  destruct (String.eqb k "issues"); reflexivity.
Qed.

End DefaultProperties.

Section RangeProperties.

Import PyFacts DirectionFacts SubFacts DictFacts ScoreFacts AiAnalyzer Analyzer.
Local Open Scope string_scope.
Local Open Scope list_scope.
Local Open Scope N_scope.

Context {U : UnicodeTables}.
(** ** The scores of any answer *)

(** The keys of the score table are the five categories and its values
    lie between 0 and 20: kept by the loop body on any issue, record or
    not *)
Lemma score_issue_range st issue st' :
  map fst (category_scores st) = CATEGORIES ->
  (forall cat, 0 <= tget cat (category_scores st) <= 20)%Z ->
  score_issue st issue = Ok st' ->
  map fst (category_scores st') = CATEGORIES /\
  (forall cat, 0 <= tget cat (category_scores st') <= 20)%Z.
Proof.
  intros Hk Hv. unfold score_issue.
  destruct (py_dict issue) as [d|e]; cbn [bind]; [|discriminate].
  destruct (penalty_of d) as [penalty|e]; cbn [bind]; [|discriminate].
  destruct (truthy (Dict.get_default "rule_id" (JStr []) d)); cbn [bind].
  - destruct (py_len (Dict.get_default "rule_id" (JStr []) d)) as [n|e];
      cbn [bind]; [|discriminate].
    destruct ((0 <? n)%nat && (0 <? penalty)%Z) eqn:V;
      [|intros [= <-]; now split].
    apply andb_true_iff in V as [_ V]. apply Z.ltb_lt in V.
    destruct (py_first (Dict.get_default "rule_id" (JStr []) d)) as [first|e];
      cbn [bind]; [|discriminate].
    destruct (py_upper first) as [prefix|e]; cbn [bind]; [|discriminate].
    destruct (prefix_lookup prefix prefix_map) as [category|] eqn:Ep;
      intros [= <-]; cbn [category_scores]; [|now split].
    split.
    + rewrite keys_tset; [exact Hk|].
      rewrite Hk. exact (prefix_lookup_category prefix category Ep).
    + intros cat. destruct (String.eqb_spec cat category) as [->|Hne].
      * rewrite tget_tset_same. specialize (Hv category). lia.
      * rewrite tget_tset_other by exact Hne. apply Hv.
  - intros [= <-]. now split.
Qed.

Lemma for_each_range issues : forall st st',
  map fst (category_scores st) = CATEGORIES ->
  (forall cat, 0 <= tget cat (category_scores st) <= 20)%Z ->
  for_each score_issue issues st = Ok st' ->
  map fst (category_scores st') = CATEGORIES /\
  (forall cat, 0 <= tget cat (category_scores st') <= 20)%Z.
Proof.
  induction issues as [|i issues IH]; intros st st' Hk Hv.
  - intros [= <-]. now split.
  - cbn [for_each]. destruct (score_issue st i) as [st1|e] eqn:E;
      cbn [bind]; [|discriminate].
    destruct (score_issue_range st i st1 Hk Hv E) as [Hk1 Hv1].
    now apply IH.
Qed.

Lemma scores_init_range cat :
  (0 <= tget cat category_scores_init <= 20)%Z.
Proof.
  unfold category_scores_init. cbn [tget].
  repeat (match goal with
          | |- context [if ?b then _ else _] => destruct b
          end; [lia|]).
  lia.
Qed.

Lemma sum_of_five (score : string -> Z) :
  (forall cat, In cat CATEGORIES -> 0 <= score cat <= 20)%Z ->
  (0 <= sumZ (map score CATEGORIES) <= 100)%Z.
Proof.
  intros H. unfold CATEGORIES in *. cbn [map sumZ fold_right].
  pose proof (H "financial_terms"%string ltac:(cbn; tauto)).
  pose proof (H "tenant_rights"%string ltac:(cbn; tauto)).
  pose proof (H "termination_clauses"%string ltac:(cbn; tauto)).
  pose proof (H "liability_repairs"%string ltac:(cbn; tauto)).
  pose proof (H "legal_compliance"%string ltac:(cbn; tauto)).
  lia.
Qed.

(** What any returned recalculation holds, contract or not, issue
    records or not *)
Lemma recalculate_scores_range a r :
  recalculate_scores a = Ok r ->
  exists score : string -> Z,
    Dict.get "overall_risk_score" r = Some (JInt (sumZ (map score CATEGORIES))) /\
    (forall cat, In cat CATEGORIES ->
       breakdown_entry r cat "score" = Some (JInt (score cat)) /\
       (0 <= score cat <= 20)%Z).
Proof.
  unfold recalculate_scores.
  destruct (truthy (Dict.get_default "is_contract" (JBool true) a)); cbn [negb].
  - destruct (py_iter (Dict.get_default "issues" (JList []) a)) as [issues|e];
      cbn [bind]; [|discriminate].
    destruct (for_each score_issue issues _) as [st|e] eqn:E;
      cbn [bind]; [|discriminate].
    apply for_each_range in E as [Hk Hv];
      [|reflexivity | intros cat; apply scores_init_range].
    cbv zeta. intros [= <-].
    exists (fun cat => tget cat (category_scores st)). split.
    + rewrite get_set_same. now rewrite (sum_values_categories _ Hk).
    + intros cat Hin. split; [|apply Hv].
      unfold breakdown_entry.
      rewrite get_set_other by discriminate. rewrite get_set_same.
      rewrite get_build_breakdown by (rewrite Hk; exact Hin). reflexivity.
  - cbv zeta. intros [= <-]. exists (fun _ => 0%Z). split.
    + rewrite get_set_other by discriminate. now rewrite get_set_same.
    + intros cat Hin. split; [|lia].
      unfold breakdown_entry. rewrite get_set_same.
      unfold CATEGORIES in Hin. cbn [In] in Hin.
      destruct Hin as [<-|[<-|[<-|[<-|[<-|[]]]]]]; reflexivity.
Qed.

(** X20. Whatever the analysis holds, a recalculation that returns
    gives five category scores between 0 and 20 and an overall score
    that is their sum, between 0 and 100. *)
Theorem recalculate_scores_bounded :
  forall (a r : dict),
    recalculate_scores a = Ok r ->
    exists (v : Z) (score : string -> Z),
      Dict.get "overall_risk_score" r = Some (JInt v) /\
      v = sumZ (map score CATEGORIES) /\
      (0 <= v <= 100)%Z /\
      (forall cat, In cat CATEGORIES ->
         breakdown_entry r cat "score" = Some (JInt (score cat)) /\
         (0 <= score cat <= 20)%Z).
Proof.
  intros a r Hr.
  destruct (recalculate_scores_range a r Hr) as (score & Ho & Hs).
  exists (sumZ (map score CATEGORIES)), score.
  split; [exact Ho|]. split; [reflexivity|]. split; [|exact Hs].
  apply sum_of_five. intros cat Hin. apply (Hs cat Hin).
Qed.

End RangeProperties.

Section HandlerProperties.

Import PyFacts DirectionFacts SubFacts DictFacts ScoreFacts AiAnalyzer Analyzer.
Local Open Scope string_scope.
Local Open Scope list_scope.
Local Open Scope N_scope.

Context {U : UnicodeTables}.
Variable json_loads : str -> str + dict.
Variable ratio_exceeds : nat -> nat -> bool.
Variable call_bedrock : str -> str -> str -> str + str.
Variable system_prompt : str.
(** ** The handler *)

(** X21. Every result the handler returns carries an analysis with an
    overall score between 0 and 100, whatever the model answers and
    whatever [json.loads] makes of it. *)
Theorem analyzer_score_range :
  forall (ev : event) (d : dict),
    lambda_handler json_loads ratio_exceeds call_bedrock system_prompt ev
      = Returned d ->
    exists (analysis : dict) (v : Z),
      Dict.get "analysis_result" d = Some (JDict analysis) /\
      Dict.get "overall_risk_score" analysis = Some (JInt v) /\
      (0 <= v <= 100)%Z.
Proof.
  intros ev d. unfold lambda_handler. cbv zeta.
  destruct (negb (nonempty (input_text ev))).
  { intros [= <-]. do 2 eexists. split; [reflexivity|].
    split; [reflexivity | lia]. }
  destruct (str_eqb (detect_language ratio_exceeds (input_text ev))
                    (lit "unsupported")).
  { intros [= <-]. do 2 eexists. split; [reflexivity|].
    split; [reflexivity | lia]. }
  destruct (call_bedrock _ _ _) as [message|ai_output]; [discriminate|].
  match goal with
  | |- context [recalculate_scores ?a] =>
    destruct (recalculate_scores a) as [r|e] eqn:Hr; [|discriminate]
  end.
  intros [= <-].
  destruct (recalculate_scores_range _ r Hr) as (score & Ho & Hs).
  exists r, (sumZ (map score CATEGORIES)).
  split; [reflexivity|]. split; [exact Ho|].
  apply sum_of_five. intros cat Hin. apply (Hs cat Hin).
Qed.

(** X22. An empty text and a text in an unsupported language are
    answered without the model: the result is the same whatever the
    model and [json.loads] would give, it is flagged as no contract and
    its overall score is 0. *)
Theorem analyzer_without_model :
  forall (ev : event)
         (json_loads' : str -> str + dict)
         (call_bedrock' : str -> str -> str -> str + str)
         (system_prompt' : str),
    input_text ev = [] \/
    detect_language ratio_exceeds (input_text ev) = lit "unsupported" ->
    lambda_handler json_loads ratio_exceeds call_bedrock system_prompt ev
    = lambda_handler json_loads' ratio_exceeds call_bedrock' system_prompt' ev /\
    exists d analysis,
      lambda_handler json_loads ratio_exceeds call_bedrock system_prompt ev
        = Returned d /\
      Dict.get "analysis_result" d = Some (JDict analysis) /\
      Dict.get "is_contract" analysis = Some (JBool false) /\
      Dict.get "overall_risk_score" analysis = Some (JInt 0).
Proof.
  intros ev jl' cb' sp' H. unfold lambda_handler. cbv zeta.
  destruct (nonempty (input_text ev)) eqn:En; cbn [negb].
  - destruct H as [H|H]; [rewrite H in En; discriminate|].
    rewrite H.
    change (str_eqb (lit "unsupported") (lit "unsupported")) with true.
    cbv iota. split; [reflexivity|].
    do 2 eexists. split; [reflexivity|]. repeat split.
  - split; [reflexivity|].
    do 2 eexists. split; [reflexivity|]. repeat split.
Qed.

(** X23. An answer that cannot be parsed gives the best scores: when
    the model answers and the parse fails, the handler returns the
    fallback analysis recalculated, with 100 overall, no issue, and the
    message of the failure in [parse_error]. *)
Theorem analyzer_parse_failure :
  forall (ev : event) (ai_output message : str),
    input_text ev <> [] ->
    detect_language ratio_exceeds (input_text ev) <> lit "unsupported" ->
    call_bedrock MODEL_ID system_prompt (user_text (truncate (input_text ev)))
      = inr ai_output ->
    parse_json_response json_loads ai_output = inl message ->
    exists d analysis,
      lambda_handler json_loads ratio_exceeds call_bedrock system_prompt ev
        = Returned d /\
      Dict.get "analysis_result" d = Some (JDict analysis) /\
      Dict.get "overall_risk_score" analysis = Some (JInt 100) /\
      Dict.get "issues" analysis = Some (JList []) /\
      Dict.get "is_contract" analysis = Some (JBool true) /\
      Dict.get "parse_error" analysis = Some (JStr message) /\
      Dict.get "sanitizedText" d = Some (JStr (truncate (input_text ev))).
Proof.
  intros ev ai_output message Hne Hlang Hcall Hparse.
  unfold lambda_handler. cbv zeta.
  destruct (input_text ev) as [|c t] eqn:Et; [contradiction|].
  cbn [nonempty negb].
  destruct (str_eqb (detect_language ratio_exceeds (c :: t))
                    (lit "unsupported")) eqn:El.
  { apply str_eqb_eq in El. contradiction. }
  rewrite Hcall, Hparse.
  do 2 eexists. split; [reflexivity|]. repeat split.
Qed.

End HandlerProperties.

(* ================================================================== *)
(** * [save-results.py]: the keys of the stored contracts *)
(* ================================================================== *)

Section KeyProperties.

Import PyFacts DirectionFacts ScoreFacts SaveResults.
Local Open Scope N_scope.

Lemma split_on_sep sep a b :
  split_on sep (a ++ sep :: b) = split_on sep a ++ split_on sep b.
Proof.
  induction a as [|c a IH].
  - cbn [app]. rewrite split_on_cons, N.eqb_refl. reflexivity.
  - cbn [app]. rewrite (split_on_cons sep c (a ++ sep :: b)).
    rewrite (split_on_cons sep c a). rewrite IH.
    destruct (c =? sep); [reflexivity|].
    pose proof (split_on_nonempty sep a).
    destruct (split_on sep a); [contradiction | reflexivity].
Qed.

Lemma split_on_two sep s : In sep s -> (2 <= List.length (split_on sep s))%nat.
Proof.
  intros Hin. apply in_split in Hin as (a & b & ->).
  rewrite split_on_sep, length_app.
  pose proof (split_on_nonempty sep a). pose proof (split_on_nonempty sep b).
  destruct (split_on sep a), (split_on sep b); try contradiction.
  cbn [List.length]. lia.
Qed.

Lemma join_snoc sep (front : list str) (l : str) :
  front <> [] -> join [sep] (front ++ [l]) = join [sep] front ++ sep :: l.
Proof.
  induction front as [|x front IH]; [contradiction|]. intros _.
  destruct front as [|y front].
  - reflexivity.
  - change (join [sep] ((x :: y :: front) ++ [l]))
      with (x ++ [sep] ++ join [sep] ((y :: front) ++ [l])).
    rewrite IH by discriminate.
    change (join [sep] (x :: y :: front))
      with (x ++ [sep] ++ join [sep] (y :: front)).
    now rewrite <- !app_assoc.
Qed.

Lemma join_two_sep sep (x y : str) (rest : list str) :
  In sep (join [sep] (x :: y :: rest)).
Proof.
  change (join [sep] (x :: y :: rest)) with (x ++ [sep] ++ join [sep] (y :: rest)).
  apply in_or_app. right. now left.
Qed.

Lemma startswith_app p s : startswith p (p ++ s) = true.
Proof. apply startswith_spec. now exists s. Qed.

Lemma endswith_app suffix s : endswith suffix (s ++ suffix) = true.
Proof. unfold endswith. rewrite rev_app_distr. apply startswith_app. Qed.

Lemma endswith_spec suffix s :
  endswith suffix s = true <-> exists a, s = a ++ suffix.
Proof.
  unfold endswith. rewrite startswith_spec. split.
  - intros (b & H). exists (rev b).
    rewrite <- (rev_involutive s), H, rev_app_distr. now rewrite rev_involutive.
  - intros (a & ->). exists (rev a). apply rev_app_distr.
Qed.

Lemma slice_inner_middle (a x b : str) :
  slice_inner (a ++ x ++ b) (List.length a) (List.length b) = x.
Proof.
  unfold slice_inner, slice. rewrite skipn_app, skipn_all, Nat.sub_diag.
  cbn [app skipn]. rewrite !length_app.
  replace (List.length a + (List.length x + List.length b) - List.length b
           - List.length a)%nat with (List.length x + 0)%nat by lia.
  rewrite firstn_app_2. cbn [firstn]. apply app_nil_r.
Qed.

(** A name that begins with [contract-] and ends with [.pdf] has the two
    apart: the hyphen is no character of the extension. *)
Lemma contract_file_name filename :
  startswith (lit "contract-") filename = true ->
  endswith (lit ".pdf") filename = true ->
  exists id, filename = lit "contract-" ++ id ++ lit ".pdf".
Proof.
  intros Hs He. apply startswith_spec in Hs as (x & ->).
  apply endswith_spec in He as (y & He).
  apply app_eq_app in He as (l & [[Ha Hb]|[Ha Hb]]).
  - assert (Hr : rev (lit "contract-") = rev l ++ rev y)
      by (rewrite Ha; apply rev_app_distr).
    destruct l as [|c1 [|c2 [|c3 [|c4 [|c5 l]]]]];
      try (vm_compute in Hb; discriminate).
    + exists []. cbn [app] in *. now rewrite <- Hb.
    + injection Hb as <- _. vm_compute in Hr. discriminate.
    + injection Hb as <- <- _. vm_compute in Hr. discriminate.
    + injection Hb as <- <- <- _. vm_compute in Hr. discriminate.
    + injection Hb as <- <- <- <- _. vm_compute in Hr. discriminate.
  - exists l. now rewrite Hb.
Qed.

Lemma uploads_no_slash : ~ In 47 (lit "uploads").
Proof. vm_compute. intuition discriminate. Qed.

Lemma contract_name_no_slash id :
  ~ In 47 id -> ~ In 47 (lit "contract-" ++ id ++ lit ".pdf").
Proof.
  intros Hid Hin. apply in_app_or in Hin as [Hin|Hin].
  - vm_compute in Hin. intuition discriminate.
  - apply in_app_or in Hin as [Hin|Hin]; [now apply Hid|].
    vm_compute in Hin. intuition discriminate.
Qed.

(** The user of a key of the upload form *)
Lemma user_id_of_key u rest :
  ~ In 47 u ->
  extract_user_id_from_key (Some (lit "uploads/" ++ u ++ 47 :: rest)) = Some u.
Proof.
  intros Hu. unfold extract_user_id_from_key.
  change (lit "uploads/" ++ u ++ 47 :: rest)
    with (lit "uploads" ++ 47 :: (u ++ 47 :: rest)).
  rewrite (split_on_app 47 _ _ uploads_no_slash), (split_on_app 47 _ _ Hu).
  pose proof (split_on_nonempty 47 rest).
  destruct (split_on 47 rest); [contradiction | reflexivity].
Qed.

(** The contract of a key that ends in a contract file *)
Lemma contract_id_of_key dir id :
  In 47 dir -> ~ In 47 id ->
  extract_contract_id_from_key
    (Some (dir ++ lit "/contract-" ++ id ++ lit ".pdf")) = Some id.
Proof.
  intros Hdir Hid. unfold extract_contract_id_from_key.
  change (lit "/contract-" ++ id ++ lit ".pdf")
    with (47 :: (lit "contract-" ++ id ++ lit ".pdf")).
  rewrite split_on_sep, (split_on_line 47 _ (contract_name_no_slash id Hid)).
  rewrite length_app, last_last. cbn [List.length].
  pose proof (split_on_two 47 dir Hdir) as H2.
  destruct (3 <=? List.length (split_on 47%N dir) + 1)%nat eqn:E;
    [|apply Nat.leb_gt in E; lia].
  rewrite startswith_app.
  match goal with
  | |- context [endswith ?a ?b] =>
    replace (endswith a b) with true
      by (symmetry; rewrite app_assoc; apply endswith_app)
  end.
  cbn [andb]. f_equal.
  exact (slice_inner_middle (lit "contract-") id (lit ".pdf")).
Qed.

(** X24. The user of a key: the extraction gives [u] exactly for the
    keys [uploads/u/...] where [u] holds no slash. *)
Theorem extract_user_id_from_key_spec :
  forall (k u : str),
    extract_user_id_from_key (Some k) = Some u <->
    ~ In 47 u /\ exists rest, k = lit "uploads/" ++ u ++ 47 :: rest.
Proof.
  intros k u. split.
  - unfold extract_user_id_from_key.
    pose proof (join_split_on 47 k) as Hj.
    pose proof (split_on_no_sep 47 k) as Hn.
    destruct (split_on 47 k) as [|p0 [|p1 [|p2 ps]]]; try discriminate.
    destruct (str_eqb p0 (lit "uploads")) eqn:E; [|discriminate].
    apply str_eqb_eq in E. subst p0. intros [= <-].
    apply Forall_cons_iff in Hn as [_ Hn]. apply Forall_cons_iff in Hn as [Hp1 _].
    split; [exact Hp1|]. exists (join [47] (p2 :: ps)).
    rewrite <- Hj.
    change (join [47] (lit "uploads" :: p1 :: p2 :: ps))
      with (lit "uploads" ++ [47] ++ p1 ++ [47] ++ join [47] (p2 :: ps)).
    change (lit "uploads/") with (lit "uploads" ++ [47]).
    now rewrite <- !app_assoc.
  - intros [Hu (rest & ->)]. now apply user_id_of_key.
Qed.

(** X25. The contract of a key: the extraction gives [id] exactly for
    the keys [dir/contract-id.pdf] where [dir] holds a slash and [id]
    none. *)
Theorem extract_contract_id_from_key_spec :
  forall (k id : str),
    extract_contract_id_from_key (Some k) = Some id <->
    ~ In 47 id /\
    exists dir, In 47 dir /\ k = dir ++ lit "/contract-" ++ id ++ lit ".pdf".
Proof.
  intros k id. split.
  - unfold extract_contract_id_from_key.
    pose proof (join_split_on 47 k) as Hj.
    pose proof (split_on_no_sep 47 k) as Hn.
    destruct (3 <=? List.length (split_on 47%N k))%nat eqn:E; [|discriminate].
    apply Nat.leb_le in E.
    destruct (split_on 47 k) as [|p0 ps] eqn:Ep; [cbn in E; lia|].
    destruct (@exists_last _ (p0 :: ps)) as (front & filename & Ef);
      [discriminate|].
    rewrite Ef in *. rewrite last_last.
    destruct (startswith (lit "contract-") filename) eqn:Hs; [|discriminate].
    destruct (endswith (lit ".pdf") filename) eqn:He; [|discriminate].
    destruct (contract_file_name filename Hs He) as (x & ->).
    cbn [andb].
    change (slice_inner (lit "contract-" ++ x ++ lit ".pdf") 9 4)
      with (slice_inner (lit "contract-" ++ x ++ lit ".pdf")
              (List.length (lit "contract-")) (List.length (lit ".pdf"))).
    rewrite slice_inner_middle. intros E'.
    assert (x = id) by congruence. subst x. clear E'.
    rewrite length_app in E. cbn [List.length] in E.
    destruct front as [|a [|b front]]; try (cbn [List.length] in E; lia).
    split.
    + apply Forall_app in Hn as [_ Hn]. apply Forall_cons_iff in Hn as [Hf _].
      intros Hin. apply Hf. apply in_or_app. right. apply in_or_app. now left.
    + exists (join [47] (a :: b :: front)). split; [apply join_two_sep|].
      rewrite <- Hj. now rewrite join_snoc by discriminate.
  - intros [Hid (dir & Hdir & ->)]. now apply contract_id_of_key.
Qed.

(** X26. Round trip with the key that [get-upload-url.py] builds: the
    user comes back when the user identifier holds no slash, and the
    contract comes back when the contract identifier holds none,
    whatever the user identifier. *)
Theorem upload_key_round_trip :
  forall (user_id uuid : str),
    (~ In 47 user_id ->
     extract_user_id_from_key (Some (upload_key user_id uuid)) = Some user_id) /\
    (~ In 47 uuid ->
     extract_contract_id_from_key (Some (upload_key user_id uuid)) = Some uuid).
Proof.
  intros user_id uuid. unfold upload_key. split.
  - intros Hu.
    change (lit "/contract-" ++ uuid ++ lit ".pdf")
      with (47 :: (lit "contract-" ++ uuid ++ lit ".pdf")).
    now apply user_id_of_key.
  - intros Hid. rewrite app_assoc. apply contract_id_of_key; [|exact Hid].
    apply in_or_app. left. vm_compute. tauto.
Qed.

End KeyProperties.

(* ================================================================== *)
(** * The further properties at sample inputs *)
(* ================================================================== *)

Section MoreWitnesses.

Import AiAnalyzer PrivacyShield PrivacyTerms Analyzer SaveResults.
Import Samples MoreSamples UCD.
Local Open Scope string_scope.
Local Open Scope list_scope.
Local Open Scope N_scope.

Lemma clean_ocr_noise_no_noise_chars_witness :
  In 97 (clean_ocr_noise noisy) /\ noise_char 97 = false /\ 97 <> 9.
Proof.
  assert (H : In 97 (clean_ocr_noise noisy)) by (vm_compute; tauto).
  split; [exact H|].
  exact (@clean_ocr_noise_no_noise_chars tables noisy 97 H).
Defined.

Lemma split_to_clauses_single_spaced_witness :
  In one_clause (split_to_clauses one_clause) /\
  ~ In LF one_clause /\
  adjacent_free isspace one_clause = true.
Proof.
  assert (H : In one_clause (split_to_clauses one_clause))
    by (vm_compute; left; reflexivity).
  split; [exact H|].
  destruct (@split_to_clauses_single_spaced tables one_clause one_clause H)
    as (_ & Hlf & Hadj & _).
  split; [exact Hlf | exact Hadj].
Defined.

Lemma sanitize_pii_plain_text_witness :
  Forall (fun c => plain c = true) letters /\
  sanitize_pii letters = (letters, []).
Proof.
  assert (H : Forall (fun c => plain c = true) letters)
    by (repeat constructor).
  split; [exact H|].
  exact (@sanitize_pii_plain_text tables letters H).
Defined.

Lemma split_to_clauses_short_text_witness :
  (List.length brief <= 15)%nat /\ split_to_clauses brief = [].
Proof.
  assert (H : (List.length brief <= 15)%nat) by (vm_compute; lia).
  split; [exact H|].
  exact (@split_to_clauses_short_text tables brief H).
Defined.

Lemma recalculate_scores_idempotent_witness :
  truthy (Dict.get_default "is_contract" (JBool true) over_penalised) = true /\
  Dict.get "issues" over_penalised = Some (JList over_penalised_issues) /\
  forallb well_formed over_penalised_issues = true /\
  exists r,
    recalculate_scores over_penalised = Ok r /\
    recalculate_scores r = Ok r.
Proof.
  split; [reflexivity|]. split; [reflexivity|]. split; [reflexivity|].
  eexists. split; [vm_compute; reflexivity|].
  apply (@recalculate_scores_idempotent tables over_penalised _
           over_penalised_issues eq_refl eq_refl eq_refl eq_refl).
Defined.


Lemma recalculate_scores_no_issues_entry_witness :
  truthy (Dict.get_default "is_contract" (JBool true) []) = true /\
  Dict.get "issues" [] = None /\
  exists r,
    recalculate_scores [] = Ok r /\
    Dict.get "overall_risk_score" r = Some (JInt 100).
Proof.
  split; [reflexivity|]. split; [reflexivity|].
  destruct (@recalculate_scores_no_issues_entry tables [] eq_refl eq_refl)
    as (r & Hr & _ & Ho & _).
  exists r. split; [exact Hr | exact Ho].
Defined.

Lemma recalculate_scores_raises_witness :
  truthy (Dict.get_default "is_contract" (JBool true) null_issues) = true /\
  Dict.get "issues" null_issues = Some JNull /\
  recalculate_scores null_issues = Raise TypeError /\
  truthy (Dict.get_default "is_contract" (JBool true) infinite) = true /\
  Dict.get "issues" infinite = Some (JList ([] ++ issue "F1" infinity :: [])) /\
  infinite_penalty (issue "F1" infinity) = true /\
  recalculate_scores infinite = Raise OverflowError.
Proof.
  split; [reflexivity|]. split; [reflexivity|].
  destruct (@recalculate_scores_raises tables null_issues eq_refl) as [H _].
  split; [exact (H JNull eq_refl (or_introl eq_refl))|].
  split; [reflexivity|]. split; [reflexivity|]. split; [reflexivity|].
  destruct (@recalculate_scores_raises tables infinite eq_refl) as [_ H2].
  destruct (H2 [] (issue "F1" infinity) [] eq_refl eq_refl eq_refl)
    as (_ & Hinf & _).
  exact (Hinf eq_refl).
Defined.

Lemma detect_language_sample_witness :
  firstn 2000 long_latin = firstn 2000 long_other /\
  detect_language exact_ratio_exceeds long_latin
  = detect_language exact_ratio_exceeds long_other.
Proof.
  assert (H : firstn 2000 long_latin = firstn 2000 long_other)
    by (vm_compute; reflexivity).
  split; [exact H|].
  exact (@detect_language_sample tables exact_ratio_exceeds
           long_latin long_other H).
Defined.

Lemma detect_language_hebrew_ascii_witness :
  (forall n, (0 < n)%nat -> exact_ratio_exceeds 0 n = false) /\
  forallb (fun c => (c <=? 127) || hebrew c) hundred = true /\
  detect_language exact_ratio_exceeds hundred <> lit "unsupported".
Proof.
  assert (Hr : forall n, (0 < n)%nat -> exact_ratio_exceeds 0 n = false)
    by (intros n _; unfold exact_ratio_exceeds; apply Nat.ltb_ge; lia).
  assert (Ht : forallb (fun c => (c <=? 127) || hebrew c) hundred = true)
    by (vm_compute; reflexivity).
  split; [exact Hr|]. split; [exact Ht|].
  exact (@detect_language_hebrew_ascii tables exact_ratio_exceeds hundred Hr Ht).
Defined.

Lemma json_text_clean_witness :
  json_text empty_object = inr (lit "{}") /\
  first_char (lit "{}") = Some 123 /\
  last_char (lit "{}") = Some 125.
Proof.
  assert (H : json_text empty_object = inr (lit "{}"))
    by (vm_compute; reflexivity).
  split; [exact H|].
  destruct (@json_text_clean tables empty_object (lit "{}") H) as (Hf & Hl & _).
  split; [exact Hf | exact Hl].
Defined.

Lemma parse_json_response_defaults_witness :
  parse_json_response loads_empty empty_object = inr DEFAULTS /\
  Dict.get "is_contract" DEFAULTS = Some (JBool true).
Proof.
  assert (H : parse_json_response loads_empty empty_object = inr DEFAULTS)
    by (vm_compute; reflexivity).
  split; [exact H|].
  destruct (@parse_json_response_defaults tables loads_empty empty_object
              DEFAULTS H) as (t & loaded & _ & Hl & Hk).
  injection Hl as <-. exact (Hk "is_contract").
Defined.

Lemma recalculate_scores_bounded_witness :
  exists r v,
    recalculate_scores over_penalised = Ok r /\
    Dict.get "overall_risk_score" r = Some (JInt v) /\
    (0 <= v <= 100)%Z.
Proof.
  destruct (@recalculate_scores tables over_penalised) as [r|e] eqn:E;
    [|vm_compute in E; discriminate].
  destruct (@recalculate_scores_bounded tables over_penalised r E)
    as (v & score & Ho & _ & Hv & _).
  exists r, v. split; [reflexivity|]. split; [exact Ho | exact Hv].
Defined.

Lemma analyzer_score_range_witness :
  exists d analysis v,
    Analyzer.lambda_handler loads_empty exact_ratio_exceeds
      (answers empty_object) [] short_input = Returned d /\
    Dict.get "analysis_result" d = Some (JDict analysis) /\
    Dict.get "overall_risk_score" analysis = Some (JInt v) /\
    (0 <= v <= 100)%Z.
Proof.
  destruct (@Analyzer.lambda_handler tables loads_empty exact_ratio_exceeds
              (answers empty_object) [] short_input) as [d|f] eqn:E;
    [|vm_compute in E; discriminate].
  destruct (@analyzer_score_range tables loads_empty exact_ratio_exceeds
              (answers empty_object) [] short_input d E)
    as (analysis & v & Ha & Ho & Hv).
  exists d, analysis, v. split; [reflexivity|].
  split; [exact Ha|]. split; [exact Ho | exact Hv].
Defined.

Lemma analyzer_without_model_witness :
  input_text no_input = [] /\
  Analyzer.lambda_handler loads_empty exact_ratio_exceeds
    (answers empty_object) [] no_input
  = Analyzer.lambda_handler (fun _ => inl []) exact_ratio_exceeds
      (fun _ _ _ => inl []) letters no_input.
Proof.
  split; [reflexivity|].
  destruct (@analyzer_without_model tables loads_empty exact_ratio_exceeds
              (answers empty_object) [] no_input
              (fun _ => inl []) (fun _ _ _ => inl []) letters
              (or_introl eq_refl)) as [H _].
  exact H.
Defined.

Lemma analyzer_parse_failure_witness :
  input_text short_input <> [] /\
  detect_language exact_ratio_exceeds (input_text short_input)
    <> lit "unsupported" /\
  parse_json_response loads_empty no_object = inl (lit "No JSON found") /\
  exists d analysis,
    Analyzer.lambda_handler loads_empty exact_ratio_exceeds
      (answers no_object) [] short_input = Returned d /\
    Dict.get "analysis_result" d = Some (JDict analysis) /\
    Dict.get "overall_risk_score" analysis = Some (JInt 100) /\
    Dict.get "parse_error" analysis = Some (JStr (lit "No JSON found")).
Proof.
  assert (Hne : input_text short_input <> []) by discriminate.
  assert (Hl : detect_language exact_ratio_exceeds (input_text short_input)
               <> lit "unsupported") by (vm_compute; discriminate).
  assert (Hp : parse_json_response loads_empty no_object
               = inl (lit "No JSON found")) by (vm_compute; reflexivity).
  split; [exact Hne|]. split; [exact Hl|]. split; [exact Hp|].
  destruct (@analyzer_parse_failure tables loads_empty exact_ratio_exceeds
              (answers no_object) [] short_input no_object
              (lit "No JSON found") Hne Hl eq_refl Hp)
    as (d & analysis & Hd & Ha & Ho & _ & _ & He & _).
  exists d, analysis. repeat split; assumption.
Defined.

Lemma upload_key_round_trip_witness :
  ~ In 47 user /\ ~ In 47 contract /\
  extract_user_id_from_key (Some (upload_key user contract)) = Some user /\
  extract_contract_id_from_key (Some (upload_key user contract)) = Some contract.
Proof.
  assert (Hu : ~ In 47 user) by (vm_compute; intuition discriminate).
  assert (Hc : ~ In 47 contract) by (vm_compute; intuition discriminate).
  split; [exact Hu|]. split; [exact Hc|].
  destruct (upload_key_round_trip user contract) as [H1 H2].
  split; [exact (H1 Hu) | exact (H2 Hc)].
Defined.

End MoreWitnesses.
